(** * ClawForge dashboard: event/state reconciliation layer

    A shallow embedding of the React front end of ClawForge
    (useEventStream.ts, components/RunDetail.tsx, components/RunList.tsx,
    App.tsx, types.ts) and the properties of its live buffer, its history
    poller and its control commands.

    - A hook's [useState] cells are a record, its handlers functions on
      that record that also return what they send or log.
    - An [async] function is split at its [await]: the part before it
      produces the request, the part after it ([..._resume]) is a function
      of the awaited result and returns the state updates it enqueues.
    - The page ([App.World]) holds the state of [App], the mounted
      [RunDetail] instance, the live timer and the calls suspended at an
      [await]; [App.step] is one event of the operator, the timer, the
      network or the socket. *)

From Stdlib Require Import String Ascii List Bool Arith Lia.
Import ListNotations.
Local Open Scope string_scope.
Local Open Scope list_scope.

(** ** types.ts *)

(** [payload] is [any] in the source; it is only ever displayed, so it is
    kept as its serialised text. *)
Record Event := mkEvent {
  id : string;
  run_id : string;
  agent_id : string;
  timestamp : string;
  kind : string;
  payload : string
}.

(** What the browser console receives: [console.log(...)] and
    [console.error(...)], with their arguments. *)
Inductive ConsoleEntry :=
| ConsoleLog (args : list string)
| ConsoleError (args : list string).

(** JavaScript truthiness of a string: every string but the empty one. *)
Definition truthy (s : string) : bool := negb (s =? "").

(** Truthiness of a [string | null]. *)
Definition truthy_opt (o : option string) : bool :=
  match o with
  | Some s => truthy s
  | None => false
  end.

(** ** useEventStream.ts *)

Module EventStream.

(** A value [JSON.parse] returns.  The annotation [const event: Event]
    is erased when the program runs and nothing checks the value, so what
    goes into the buffer either has the fields of an [Event] or is some
    other JSON value (a number, [null], an object without those fields),
    kept here as its text. *)
Inductive Received :=
| IsEvent (event : Event)
| NotEvent (json : string).

(** The two [useState] cells of the hook.  [events] is declared
    [Event[]]; at run time it holds whatever was parsed. *)
Record State := mkState {
  events : list Received;
  isConnected : bool
}.

Definition initial : State := {| events := []; isConnected := false |}.

(** What a handler does besides updating the hook state. *)
Inductive Effect :=
| Console (entry : ConsoleEntry)
| SocketClose.

(** The three callbacks the socket can invoke. *)
Inductive SocketEvent :=
| OnOpen
| OnMessage (data : string)
| OnClose.

(** Result of [JSON.parse(message.data)]: a value, of whatever shape,
    or the [SyntaxError] it throws on text that is not JSON. *)
Inductive Parsed :=
| ParseOk (value : Received)
| ParseThrows (err : string).

(** [.slice(0, 100)] *)
Definition capacity : nat := 100.

Section Hook.

Variable JSON_parse : string -> Parsed.

Definition onopen (s : State) : State * list Effect :=
  ({| events := events s; isConnected := true |},
   [Console (ConsoleLog ["Connected to WebSocket"])]).

(** [setEvents((prev) => [event, ...prev].slice(0, 100))] inside
    [try]; the [catch] only logs. *)
Definition onmessage (s : State) (data : string) : State * list Effect :=
  match JSON_parse data with
  | ParseOk event =>
      ({| events := firstn capacity (event :: events s);
          isConnected := isConnected s |}, [])
  | ParseThrows e =>
      (s, [Console (ConsoleError ["Failed to parse event"; e])])
  end.

Definition onclose (s : State) : State * list Effect :=
  ({| events := events s; isConnected := false |},
   [Console (ConsoleLog ["Disconnected from WebSocket"])]).

(** The effect's cleanup: [socket.close()]. *)
Definition cleanup : list Effect := [SocketClose].

Definition handle (s : State) (ev : SocketEvent) : State * list Effect :=
  match ev with
  | OnOpen => onopen s
  | OnMessage data => onmessage s data
  | OnClose => onclose s
  end.

(** The hook state after the socket has delivered [evs] in order,
    together with everything the handlers emitted. *)
Fixpoint run (s : State) (evs : list SocketEvent) : State * list Effect :=
  match evs with
  | [] => (s, [])
  | ev :: rest =>
      let (s1, out1) := handle s ev in
      let (s2, out2) := run s1 rest in
      (s2, out1 ++ out2)
  end.

(** The events that arrived, oldest first: the messages of the trace
    whose payload parsed. *)
Fixpoint arrived (evs : list SocketEvent) : list Received :=
  match evs with
  | [] => []
  | OnMessage data :: rest =>
      match JSON_parse data with
      | ParseOk event => event :: arrived rest
      | ParseThrows _ => arrived rest
      end
  | _ :: rest => arrived rest
  end.

End Hook.

End EventStream.

(** ** Requests and responses of the HTTP surface the components use *)

Inductive Request :=
| GetRun (runId : string)                    (* GET  /api/runs/{id} *)
| PostCancel (runId : string)                (* POST /api/runs/{id}/cancel *)
| PostInput (runId : string) (input : string). (* POST /api/runs/{id}/input *)

(** The body of [GET /api/runs/{id}] as [fetchDetails] reads it:
    [data.events] may be missing, [data.status] is used as it comes. *)
Record RunData := mkRunData {
  data_events : option (list Event);
  data_status : string
}.

(** Result of [await res.json()]. *)
Inductive Json :=
| JsonData (data : RunData)
| JsonThrows (err : string).

(** Result of [await fetch(...)]: the promise rejects (network error), or
    it resolves to a response with its [ok] flag and its body.  A response
    with an error status resolves, it does not reject. *)
Inductive Fetched :=
| Rejected (err : string)
| Response (ok : bool) (body : Json).

(** ** components/RunDetail.tsx *)

Module RunDetail.

(** The five [useState] cells. *)
Record State := mkState {
  events : list Event;
  status : string;
  inputPrompt : option string;
  inputValue : string;
  loading : bool
}.

Definition initial : State :=
  {| events := []; status := "unknown"; inputPrompt := None;
     inputValue := ""; loading := false |}.

Definition setEvents (v : list Event) (s : State) : State :=
  {| events := v; status := status s; inputPrompt := inputPrompt s;
     inputValue := inputValue s; loading := loading s |}.

Definition setStatus (v : string) (s : State) : State :=
  {| events := events s; status := v; inputPrompt := inputPrompt s;
     inputValue := inputValue s; loading := loading s |}.

Definition setInputPrompt (v : option string) (s : State) : State :=
  {| events := events s; status := status s; inputPrompt := v;
     inputValue := inputValue s; loading := loading s |}.

Definition setInputValue (v : string) (s : State) : State :=
  {| events := events s; status := status s; inputPrompt := inputPrompt s;
     inputValue := v; loading := loading s |}.

Definition setLoading (v : bool) (s : State) : State :=
  {| events := events s; status := status s; inputPrompt := inputPrompt s;
     inputValue := inputValue s; loading := v |}.

(** [data.events || []] *)
Definition events_or_empty (data : RunData) : list Event :=
  match data_events data with
  | Some evs => evs
  | None => []
  end.

(** *** fetchDetails *)

Definition fetchDetails (runId : string) : Request := GetRun runId.

(** The rest of [fetchDetails] once the fetch has settled: the state
    updates it enqueues and what it writes to the console.  Nothing is
    done for a response that is not [ok]; the [catch] covers a rejected
    fetch and a body that cannot be read. *)
Definition fetchDetails_resume (r : Fetched) : (State -> State) * list ConsoleEntry :=
  match r with
  | Response true (JsonData data) =>
      (fun s => setStatus (data_status data) (setEvents (events_or_empty data) s), [])
  | Response true (JsonThrows e) => (fun s => s, [ConsoleError [e]])
  | Response false _ => (fun s => s, [])
  | Rejected e => (fun s => s, [ConsoleError [e]])
  end.

(** *** cancelRun *)

(** [confirmed] is the answer to [confirm('Stop this run?')]. *)
Definition cancelRun (confirmed : bool) (runId : string) : list Request :=
  if confirmed then [PostCancel runId] else [].

(** After the POST settles: [fetchDetails()] is called unless the fetch
    rejected.  The flag says whether it is called. *)
Definition cancelRun_resume (r : Fetched) : bool * list ConsoleEntry :=
  match r with
  | Rejected e => (false, [ConsoleError [e]])
  | Response _ _ => (true, [])
  end.

(** *** submitInput *)

(** Up to the [await]: return at once on an empty value, otherwise
    [setLoading(true)] and send the POST. *)
Definition submitInput (s : State) (runId : string) : State * list Request :=
  if negb (truthy (inputValue s)) then (s, [])
  else (setLoading true s, [PostInput runId (inputValue s)]).

(** After the POST settles.  The response is not inspected: unless the
    fetch rejected, the value and the prompt are cleared and
    [fetchDetails()] is called (the flag); [finally] resets [loading]. *)
Definition submitInput_resume (r : Fetched) : (State -> State) * bool * list ConsoleEntry :=
  match r with
  | Rejected e => (fun s => setLoading false s, false, [ConsoleError [e]])
  | Response _ _ =>
      (fun s => setLoading false (setInputPrompt None (setInputValue "" s)),
       true, [])
  end.

(** *** What is rendered *)

(** [status !== 'RunCompleted' && status !== 'RunFailed' &&
    status !== 'Cancelled'] *)
Definition stop_button (status : string) : bool :=
  negb (status =? "RunCompleted") && negb (status =? "RunFailed")
  && negb (status =? "Cancelled").

(** The statuses the component knows as final. *)
Definition terminal_status (status : string) : bool :=
  (status =? "RunCompleted") || (status =? "RunFailed")
  || (status =? "Cancelled").

(** The input block: shown under [inputPrompt && (...)]. *)
Record PromptBlock := mkPromptBlock {
  prompt_text : string;
  input_text : string;
  send_disabled : bool
}.

Record View := mkView {
  status_line : string;
  stop_shown : bool;
  prompt_block : option PromptBlock;
  feed : list Event
}.

Definition render (s : State) : View :=
  {| status_line := "Status: " ++ status s;
     stop_shown := stop_button (status s);
     prompt_block :=
       match inputPrompt s with
       | Some p =>
           if truthy p
           then Some {| prompt_text := p; input_text := inputValue s;
                        send_disabled := loading s |}
           else None
       | None => None
       end;
     feed := events s |}.

(** *** The poller seen from the component: a run of fetch results *)

Definition apply_fetch (s : State) (r : Fetched) : State :=
  fst (fetchDetails_resume r) s.

Definition poll (s : State) (rs : list Fetched) : State :=
  fold_left apply_fetch rs s.

(** The status shown after the responses [rs], from a fresh component. *)
Definition derived (rs : list Fetched) : string := status (poll initial rs).

(** The body of the last response of [rs] that was applied. *)
Fixpoint last_applied (rs : list Fetched) : option RunData :=
  match rs with
  | [] => None
  | r :: rest =>
      match last_applied rest with
      | Some d => Some d
      | None =>
          match r with
          | Response true (JsonData d) => Some d
          | _ => None
          end
      end
  end.

(** A response that shows a final status. *)
Definition shows_terminal (r : Fetched) : bool :=
  match r with
  | Response true (JsonData d) => terminal_status (data_status d)
  | _ => false
  end.

(** The status strings that stand for "waiting for operator input": the
    kind named in the comment of [fetchDetails] and the [RunState] tag of
    types.ts. *)
Definition awaiting_input_status (status : string) : bool :=
  (status =? "RequestInput") || (status =? "awaiting_input")
  || (status =? "AwaitingInput").

End RunDetail.

(** ** String operations of JavaScript the components use *)

(** [s.split(sep)[0]] for a one-character separator: the part of [s]
    before the first [sep], all of [s] when there is none. *)
Fixpoint split_head (sep : ascii) (s : string) : string :=
  match s with
  | EmptyString => EmptyString
  | String c rest =>
      if Ascii.eqb c sep then EmptyString else String c (split_head sep rest)
  end.

(** [s.includes(pat)] *)
Fixpoint includes (pat s : string) : bool :=
  if prefix pat s then true
  else match s with
       | EmptyString => false
       | String _ rest => includes pat rest
       end.

(** The string without its first [n] characters. *)
Fixpoint skip (n : nat) (s : string) : string :=
  match n, s with
  | 0, _ => s
  | S n', String _ rest => skip n' rest
  | S _, EmptyString => EmptyString
  end.

(** [s.replace(pat, rep)] for a string pattern: the first occurrence of
    [pat], reading from the left, is replaced. *)
Fixpoint replace_first (pat rep s : string) : string :=
  if prefix pat s then rep ++ skip (String.length pat) s
  else match s with
       | EmptyString => EmptyString
       | String c rest => String c (replace_first pat rep rest)
       end.

(** Result of an awaited fetch whose body, once read, is a [Body]: the
    promise rejects, or it resolves to a response with its [ok] flag and
    what [res.json()] gives or throws. *)
Inductive Settled (Body : Type) :=
| Fails (err : string)
| Answers (ok : bool) (body : Body + string).

Arguments Fails {Body} err.
Arguments Answers {Body} ok body.

(** ** components/RunList.tsx *)

Module RunList.

(** The colour of the status badge of a row. *)
Inductive Badge := Green | Red | Blue.

(** [run.status === 'run_completed' ? green : run.status === 'run_failed'
    ? red : blue].  A row has one handler, its [onClick], which calls
    [onSelectRun(run.run_id)]; the list has no cancel control. *)
Definition badge (status : string) : Badge :=
  if status =? "run_completed" then Green
  else if status =? "run_failed" then Red
  else Blue.

(** [interface RunSummary] *)
Record RunSummary := mkRunSummary {
  run_id : string;
  event_count : nat;
  status : string
}.

(** The body of [GET /api/runs] as [fetchRuns] reads it: [data.runs],
    which may be missing. *)
Record RunsData := mkRunsData {
  data_runs : option (list RunSummary)
}.

(** The two [useState] cells.  [runs] is [None] when the cell holds
    [undefined], which [setRuns(data.runs)] stores for a body without
    [runs]. *)
Record State := mkState {
  runs : option (list RunSummary);
  loading : bool
}.

Definition initial : State := {| runs := Some []; loading := false |}.

Definition setRuns (v : option (list RunSummary)) (s : State) : State :=
  {| runs := v; loading := loading s |}.

Definition setLoading (v : bool) (s : State) : State :=
  {| runs := runs s; loading := v |}.

Inductive ListRequest := GetRuns.   (* GET /api/runs *)

(** [fetchRuns] up to its [await]. *)
Definition fetchRuns (s : State) : State * ListRequest :=
  (setLoading true s, GetRuns).

(** The rest of [fetchRuns]: [res.ok] is not looked at; the [catch]
    covers a rejected fetch and a body that cannot be read; [finally]
    resets [loading]. *)
Definition fetchRuns_resume (r : Settled RunsData)
  : (State -> State) * list ConsoleEntry :=
  match r with
  | Answers _ (inl data) =>
      (fun s => setLoading false (setRuns (data_runs data) s), [])
  | Answers _ (inr e) =>
      (fun s => setLoading false s, [ConsoleError ["Failed to fetch runs:"; e]])
  | Fails e =>
      (fun s => setLoading false s, [ConsoleError ["Failed to fetch runs:"; e]])
  end.

(** The text of the badge: [run.status.replace('run_', '')]. *)
Definition label (status : string) : string := replace_first "run_" "" status.

(** The text in front of the dots: [run.run_id.split('-')[0]]. *)
Definition short_id (run_id : string) : string := split_head "-"%char run_id.

Record Row := mkRow {
  row_key : string;
  row_title : string;
  row_id_text : string;
  row_badge : Badge;
  row_label : string;
  row_count : nat
}.

Definition row (run : RunSummary) : Row :=
  {| row_key := run_id run;
     row_title := run_id run;
     row_id_text := short_id (run_id run) ++ "...";
     row_badge := badge (status run);
     row_label := label (status run);
     row_count := event_count run |}.

Inductive ListBody :=
| NoRuns                     (* "No runs found" *)
| Rows (rows : list Row).

Record View := mkView {
  spinning : bool;           (* the refresh icon has [animate-spin] *)
  body : ListBody
}.

(** What is rendered; [None] when rendering throws, which reading
    [runs.length] of [undefined] does. *)
Definition render (s : State) : option View :=
  match runs s with
  | None => None
  | Some [] => Some {| spinning := loading s; body := NoRuns |}
  | Some l => Some {| spinning := loading s; body := Rows (map row l) |}
  end.

(** The component with the number of its [fetchRuns] calls in flight. *)
Record World := mkWorld {
  state : State;
  in_flight : nat
}.

(** After the mount effect: [fetchRuns()] has been called. *)
Definition init : World :=
  {| state := fst (fetchRuns initial); in_flight := 1 |}.

Inductive Action :=
| ClickRefresh                          (* the refresh button *)
| Settle (r : Settled RunsData).        (* one of the fetches settles *)

(** The refresh button is never disabled; it is there as long as the
    component renders. *)
Definition step (w : World) (a : Action) : option World :=
  match a with
  | ClickRefresh =>
      match render (state w) with
      | Some _ => Some {| state := fst (fetchRuns (state w));
                          in_flight := S (in_flight w) |}
      | None => None
      end
  | Settle r =>
      match in_flight w with
      | S k => Some {| state := fst (fetchRuns_resume r) (state w);
                       in_flight := k |}
      | 0 => None
      end
  end.

Inductive reachable : World -> Prop :=
| reachable_init : reachable init
| reachable_step (w w' : World) (a : Action) :
    reachable w -> step w a = Some w' -> reachable w'.

End RunList.

(** ** App.tsx: the page, with the run view it mounts and the requests in
    flight *)

Module App.

Inductive ViewMode := Live | History.

(** The [RunDetail] instance on the page: React keeps one instance, and
    its state, for as long as the same element stays at the same place of
    the tree; [App] renders [<RunDetail runId={activeRunId} />] without a
    key, so changing [activeRunId] in history mode updates the props of
    the instance that is there. *)
Record Mounted := mkMounted {
  instance : nat;
  runId : string;
  state : RunDetail.State
}.

(** A call suspended at its [await], with the instance whose state
    setters it holds and the [runId] its closure captured. *)
Inductive Pending :=
| AwaitGet (inst : nat) (rid : string)
| AwaitCancel (inst : nat) (rid : string)
| AwaitInput (inst : nat) (rid : string).

Record World := mkWorld {
  live : EventStream.State;       (* useEventStream() *)
  viewMode : ViewMode;
  activeRunId : option string;
  mounted : option Mounted;
  next_instance : nat;
  interval : option string;       (* the run id the live timer polls *)
  pending : list Pending;         (* oldest first *)
  outbox : list Request;          (* requests sent, newest first *)
  console : list ConsoleEntry     (* newest first *)
}.

Definition init : World :=
  {| live := EventStream.initial; viewMode := Live; activeRunId := None;
     mounted := None; next_instance := 0; interval := None;
     pending := []; outbox := []; console := [] |}.

(** What the operator and the environment can do. *)
Inductive Action :=
| ClickLiveFeed                     (* the "Live Feed" card *)
| SelectRun (rid : string)          (* a row of RunList: onSelectRun *)
| IntervalTick                      (* the 2000 ms timer fires *)
| ClickStop (confirmed : bool)      (* the Stop button and the dialog *)
| TypeInput (value : string)        (* onChange of the prompt's input *)
| PressEnter                        (* onKeyDown of the prompt's input *)
| ClickSend                         (* the Send button *)
| Settle (n : nat) (r : Fetched)    (* the n-th pending fetch settles *)
| Socket (ev : EventStream.SocketEvent).

Definition with_state (m : Mounted) (s : RunDetail.State) : Mounted :=
  {| instance := instance m; runId := runId m; state := s |}.

(** Apply enqueued state updates to the instance they belong to; on any
    other instance, or none, they are lost. *)
Definition update_instance (inst : nat) (f : RunDetail.State -> RunDetail.State)
    (mo : option Mounted) : option Mounted :=
  match mo with
  | Some m => if Nat.eqb (instance m) inst then Some (with_state m (f (state m))) else Some m
  | None => None
  end.

(** [fetchDetails()] called from instance [inst] with [rid] in its
    closure: the request leaves and the call waits. *)
Definition call_fetchDetails (inst : nat) (rid : string) (w : World) : World :=
  {| live := live w; viewMode := viewMode w; activeRunId := activeRunId w;
     mounted := mounted w; next_instance := next_instance w;
     interval := interval w;
     pending := pending w ++ [AwaitGet inst rid];
     outbox := RunDetail.fetchDetails rid :: outbox w;
     console := console w |}.

(** The element [App] puts in the main section is a [RunDetail] exactly
    when [viewMode] is ['history'] and [activeRunId] is truthy; this is
    its [runId] prop. *)
Definition detail_prop (mode : ViewMode) (active : option string) : option string :=
  match mode, active with
  | History, Some rid => if truthy rid then Some rid else None
  | _, _ => None
  end.

(** Commit a change of [viewMode] and [activeRunId]: unmount (the
    effect's cleanup clears the timer), mount (fresh state, then the
    effect: one fetch and a new timer), or update in place (when [runId]
    changed, cleanup then the effect again; the state stays). *)
Definition commit (mode : ViewMode) (active : option string) (w : World) : World :=
  match detail_prop mode active, mounted w with
  | None, _ =>
      {| live := live w; viewMode := mode; activeRunId := active;
         mounted := None; next_instance := next_instance w;
         interval := None;
         pending := pending w; outbox := outbox w; console := console w |}
  | Some rid, None =>
      call_fetchDetails (next_instance w) rid
        {| live := live w; viewMode := mode; activeRunId := active;
           mounted := Some {| instance := next_instance w; runId := rid;
                              state := RunDetail.initial |};
           next_instance := S (next_instance w);
           interval := Some rid;
           pending := pending w; outbox := outbox w; console := console w |}
  | Some rid, Some m =>
      if (runId m =? rid)%string then
        {| live := live w; viewMode := mode; activeRunId := active;
           mounted := Some m; next_instance := next_instance w;
           interval := interval w;
           pending := pending w; outbox := outbox w; console := console w |}
      else
        call_fetchDetails (instance m) rid
          {| live := live w; viewMode := mode; activeRunId := active;
             mounted := Some {| instance := instance m; runId := rid;
                                state := state m |};
             next_instance := next_instance w;
             interval := Some rid;
             pending := pending w; outbox := outbox w; console := console w |}
  end.

(** [handleSelectRun]: [setActiveRunId(runId); setViewMode('history')]. *)
Definition handleSelectRun (rid : string) (w : World) : World :=
  commit History (Some rid) w.

(** The handler of the "Live Feed" card:
    [setViewMode('live'); setActiveRunId(null)]. *)
Definition showLiveFeed (w : World) : World := commit Live None w.

Definition set_mounted (mo : option Mounted) (w : World) : World :=
  {| live := live w; viewMode := viewMode w; activeRunId := activeRunId w;
     mounted := mo; next_instance := next_instance w;
     interval := interval w;
     pending := pending w; outbox := outbox w; console := console w |}.

Definition set_pending (ps : list Pending) (w : World) : World :=
  {| live := live w; viewMode := viewMode w; activeRunId := activeRunId w;
     mounted := mounted w; next_instance := next_instance w;
     interval := interval w;
     pending := ps; outbox := outbox w; console := console w |}.

Definition send (reqs : list Request) (w : World) : World :=
  {| live := live w; viewMode := viewMode w; activeRunId := activeRunId w;
     mounted := mounted w; next_instance := next_instance w;
     interval := interval w;
     pending := pending w; outbox := reqs ++ outbox w; console := console w |}.

Definition log (entries : list ConsoleEntry) (w : World) : World :=
  {| live := live w; viewMode := viewMode w; activeRunId := activeRunId w;
     mounted := mounted w; next_instance := next_instance w;
     interval := interval w;
     pending := pending w; outbox := outbox w;
     console := entries ++ console w |}.

Definition set_live (l : EventStream.State) (w : World) : World :=
  {| live := l; viewMode := viewMode w; activeRunId := activeRunId w;
     mounted := mounted w; next_instance := next_instance w;
     interval := interval w;
     pending := pending w; outbox := outbox w; console := console w |}.

(** The list without its [n]-th element. *)
Fixpoint drop_nth {A : Type} (n : nat) (l : list A) : list A :=
  match l, n with
  | [], _ => []
  | _ :: rest, 0 => rest
  | x :: rest, S n' => x :: drop_nth n' rest
  end.

(** The prompt block is on the page. *)
Definition prompt_shown (m : Mounted) : bool :=
  match RunDetail.prompt_block (RunDetail.render (state m)) with
  | Some _ => true
  | None => false
  end.

(** The Send button is on the page and not disabled. *)
Definition send_enabled (m : Mounted) : bool :=
  match RunDetail.prompt_block (RunDetail.render (state m)) with
  | Some b => negb (RunDetail.send_disabled b)
  | None => false
  end.

(** [submitInput()] called from the mounted instance. *)
Definition call_submitInput (m : Mounted) (w : World) : World :=
  let (s', reqs) := RunDetail.submitInput (state m) (runId m) in
  let w1 := send reqs (set_mounted (Some (with_state m s')) w) in
  match reqs with
  | [] => w1
  | _ => set_pending (pending w1 ++ [AwaitInput (instance m) (runId m)]) w1
  end.

(** The console entries among the effects of a socket handler. *)
Fixpoint console_of (effs : list EventStream.Effect) : list ConsoleEntry :=
  match effs with
  | [] => []
  | EventStream.Console c :: rest => c :: console_of rest
  | EventStream.SocketClose :: rest => console_of rest
  end.

(** The cancel commands among the requests sent. *)
Definition cancels (reqs : list Request) : list Request :=
  filter (fun q => match q with PostCancel _ => true | _ => false end) reqs.

(** The input submissions among the requests sent. *)
Definition inputs (reqs : list Request) : list Request :=
  filter (fun q => match q with PostInput _ _ => true | _ => false end) reqs.

Section Step.

Variable JSON_parse : string -> EventStream.Parsed.

(** The continuation of a suspended call, given the result of its
    fetch. *)
Definition settle (p : Pending) (r : Fetched) (w : World) : World :=
  match p with
  | AwaitGet inst rid =>
      let (f, out) := RunDetail.fetchDetails_resume r in
      log out (set_mounted (update_instance inst f (mounted w)) w)
  | AwaitCancel inst rid =>
      let (again, out) := RunDetail.cancelRun_resume r in
      let w1 := log out w in
      if again then call_fetchDetails inst rid w1 else w1
  | AwaitInput inst rid =>
      let '(f, again, out) := RunDetail.submitInput_resume r in
      let w1 := log out (set_mounted (update_instance inst f (mounted w)) w) in
      if again then call_fetchDetails inst rid w1 else w1
  end.

(** One step of the page; [None] when the control the action needs is
    not on the page (or enabled), the timer does not exist, or there is
    no such pending call. *)
Definition step (w : World) (a : Action) : option World :=
  match a with
  | ClickLiveFeed => Some (showLiveFeed w)
  | SelectRun rid => Some (handleSelectRun rid w)
  | IntervalTick =>
      match interval w, mounted w with
      | Some rid, Some m => Some (call_fetchDetails (instance m) rid w)
      | _, _ => None
      end
  | ClickStop confirmed =>
      match mounted w with
      | Some m =>
          if RunDetail.stop_shown (RunDetail.render (state m)) then
            match RunDetail.cancelRun confirmed (runId m) with
            | [] => Some w
            | reqs =>
                let w1 := send reqs w in
                Some (set_pending
                        (pending w1 ++ [AwaitCancel (instance m) (runId m)]) w1)
            end
          else None
      | None => None
      end
  | TypeInput value =>
      match mounted w with
      | Some m =>
          if prompt_shown m
          then Some (set_mounted
                       (Some (with_state m (RunDetail.setInputValue value (state m)))) w)
          else None
      | None => None
      end
  | PressEnter =>
      match mounted w with
      | Some m => if prompt_shown m then Some (call_submitInput m w) else None
      | None => None
      end
  | ClickSend =>
      match mounted w with
      | Some m => if send_enabled m then Some (call_submitInput m w) else None
      | None => None
      end
  | Settle n r =>
      match nth_error (pending w) n with
      | Some p => Some (settle p r (set_pending (drop_nth n (pending w)) w))
      | None => None
      end
  | Socket ev =>
      let (l, effs) := EventStream.handle JSON_parse (live w) ev in
      Some (log (console_of effs) (set_live l w))
  end.

(** The page after a sequence of actions. *)
Fixpoint steps (w : World) (acts : list Action) : option World :=
  match acts with
  | [] => Some w
  | a :: rest =>
      match step w a with
      | Some w' => steps w' rest
      | None => None
      end
  end.

Inductive reachable : World -> Prop :=
| reachable_init : reachable init
| reachable_step (w w' : World) (a : Action) :
    reachable w -> step w a = Some w' -> reachable w'.

(** The action applies a snapshot to the run view on the page: it settles
    a [fetchDetails] of the mounted instance with a readable [ok]
    response. *)
Definition applies_snapshot (w : World) (a : Action) : bool :=
  match a with
  | Settle n (Response true (JsonData _)) =>
      match nth_error (pending w) n, mounted w with
      | Some (AwaitGet inst _), Some m => Nat.eqb (instance m) inst
      | _, _ => false
      end
  | _ => false
  end.

(** The run view is on the page and no snapshot has been applied to it
    since it was mounted. *)
Inductive fresh_view : World -> Prop :=
| fresh_mount (w w' : World) (rid : string) :
    mounted w = None ->
    step w (SelectRun rid) = Some w' ->
    mounted w' <> None ->
    fresh_view w'
| fresh_step (w w' : World) (a : Action) :
    fresh_view w ->
    step w a = Some w' ->
    mounted w' <> None ->
    applies_snapshot w a = false ->
    fresh_view w'.

End Step.

(** What holds of every page that can be reached: the timer exists
    exactly while the run view is mounted and polls the run the view was
    given, which is the selected one; the view has no prompt and no typed
    value; no input submission has been sent. *)
Definition invariant (w : World) : Prop :=
  interval w = option_map runId (mounted w)
  /\ (forall m, mounted w = Some m ->
      viewMode w = History
      /\ activeRunId w = Some (runId m)
      /\ RunDetail.inputPrompt (state m) = None
      /\ RunDetail.inputValue (state m) = "")
  /\ inputs (outbox w) = [].

End App.

(** ** components/EventFeed.tsx *)

Module EventFeed.

(** [s.split(sep)] for a one-character separator: all the pieces, at
    least one. *)
Fixpoint split (sep : ascii) (s : string) : list string :=
  match s with
  | EmptyString => [EmptyString]
  | String c rest =>
      if Ascii.eqb c sep then EmptyString :: split sep rest
      else match split sep rest with
           | w :: ws => String c w :: ws
           | [] => [String c EmptyString]
           end
  end.

(** [l.join(sep)] *)
Fixpoint join (sep : string) (l : list string) : string :=
  match l with
  | [] => EmptyString
  | w :: rest =>
      match rest with
      | [] => w
      | _ => w ++ sep ++ join sep rest
      end
  end.

(** [c.toUpperCase()] on a character of the ASCII range: the letters
    [a] to [z] move to [A] to [Z], nothing else changes. *)
Definition toUpperCase (c : ascii) : ascii :=
  let n := nat_of_ascii c in
  if Nat.leb 97 n && Nat.leb n 122 then ascii_of_nat (n - 32) else c.

(** [w.charAt(0).toUpperCase() + w.slice(1)] *)
Definition capitalize (w : string) : string :=
  match w with
  | EmptyString => EmptyString
  | String c rest => String (toUpperCase c) rest
  end.

(** [kind.split('_').map(...).join(' ')] *)
Definition formatKind (kind : string) : string :=
  join " " (map capitalize (split "_"%char kind)).

(** The string is made of characters of the ASCII range, on which a
    character of JavaScript is one character here. *)
Definition ascii_only (s : string) : bool :=
  forallb (fun c => Nat.ltb (nat_of_ascii c) 128) (list_ascii_of_string s).

Inductive Icon := Warning | GreenDot | Terminal | BlueDot.

Definition getEventIcon (kind : string) : Icon :=
  if includes "failed" kind || includes "error" kind then Warning
  else if includes "completed" kind then GreenDot
  else if includes "action" kind then Terminal
  else BlueDot.

End EventFeed.

(** ** components/AgentList.tsx *)

Module AgentList.

(** [interface Agent]; [trigger] is [any] and is not used. *)
Record Agent := mkAgent {
  id : string;
  name : string;
  description : string;
  trigger : string
}.

(** The body of [GET /api/agents]: [data.agents], which may be missing. *)
Record AgentsData := mkAgentsData {
  data_agents : option (list Agent)
}.

Record State := mkState {
  agents : option (list Agent);
  loading : bool
}.

Definition initial : State := {| agents := Some []; loading := false |}.

Definition setAgents (v : option (list Agent)) (s : State) : State :=
  {| agents := v; loading := loading s |}.

Definition setLoading (v : bool) (s : State) : State :=
  {| agents := agents s; loading := v |}.

Inductive AgentRequest :=
| GetAgents                      (* GET  /api/agents *)
| PostRun (agent : string).      (* POST /api/agents/{id}/run *)

(** What the component shows besides its own rendering. *)
Inductive Effect :=
| Alert (msg : string)
| Console (entry : ConsoleEntry).

(** The rest of [fetchAgents] after its fetch has settled. *)
Definition fetchAgents_resume (r : Settled AgentsData)
  : (State -> State) * list Effect :=
  match r with
  | Answers _ (inl data) => (fun s => setAgents (data_agents data) s, [])
  | Answers _ (inr e) =>
      (fun s => s, [Console (ConsoleError ["Failed to fetch agents:"; e])])
  | Fails e =>
      (fun s => s, [Console (ConsoleError ["Failed to fetch agents:"; e])])
  end.

(** [runAgent] up to its [await]: [setLoading(true)], then the POST. *)
Definition runAgent (s : State) (agent : string) : State * AgentRequest :=
  (setLoading true s, PostRun agent).

(** The rest of [runAgent]; the effects are in the order they happen. *)
Definition runAgent_resume (r : Settled unit) : (State -> State) * list Effect :=
  match r with
  | Answers true _ =>
      (fun s => setLoading false s, [Alert "Run triggered successfully!"])
  | Answers false _ =>
      (fun s => setLoading false s, [Alert "Failed to trigger run"])
  | Fails e =>
      (fun s => setLoading false s,
       [Console (ConsoleError [e]); Alert "Error triggering run"])
  end.

(** The Run button of the row of [agent] is on the page and enabled:
    the list is there, has that row, and [loading] is off. *)
Definition run_enabled (s : State) (agent : string) : bool :=
  match agents s with
  | Some l => existsb (fun a => id a =? agent) l && negb (loading s)
  | None => false
  end.

Inductive Pending :=
| AwaitAgents
| AwaitRun (agent : string).

(** The component with its calls in flight, the requests it has sent and
    what it has shown (newest first). *)
Record World := mkWorld {
  state : State;
  pending : list Pending;
  sent : list AgentRequest;
  shown : list Effect
}.

(** After the mount effect: [fetchAgents()] has been called. *)
Definition init : World :=
  {| state := initial; pending := [AwaitAgents]; sent := [GetAgents];
     shown := [] |}.

Inductive Action :=
| ClickRun (agent : string)
| SettleAgents (n : nat) (r : Settled AgentsData)
| SettleRun (n : nat) (r : Settled unit).

Definition step (w : World) (a : Action) : option World :=
  match a with
  | ClickRun agent =>
      if run_enabled (state w) agent then
        let (s', req) := runAgent (state w) agent in
        Some {| state := s'; pending := pending w ++ [AwaitRun agent];
                sent := req :: sent w; shown := shown w |}
      else None
  | SettleAgents n r =>
      match nth_error (pending w) n with
      | Some AwaitAgents =>
          let (f, out) := fetchAgents_resume r in
          Some {| state := f (state w); pending := App.drop_nth n (pending w);
                  sent := sent w; shown := rev out ++ shown w |}
      | _ => None
      end
  | SettleRun n r =>
      match nth_error (pending w) n with
      | Some (AwaitRun _) =>
          let (f, out) := runAgent_resume r in
          Some {| state := f (state w); pending := App.drop_nth n (pending w);
                  sent := sent w; shown := rev out ++ shown w |}
      | _ => None
      end
  end.

Inductive reachable : World -> Prop :=
| reachable_init : reachable init
| reachable_step (w w' : World) (a : Action) :
    reachable w -> step w a = Some w' -> reachable w'.

Fixpoint steps (w : World) (acts : list Action) : option World :=
  match acts with
  | [] => Some w
  | a :: rest =>
      match step w a with
      | Some w' => steps w' rest
      | None => None
      end
  end.

(** The run triggers among the calls in flight. *)
Definition runs_in_flight (ps : list Pending) : nat :=
  length (filter (fun p => match p with AwaitRun _ => true | _ => false end) ps).

(** The run triggers among the requests sent. *)
Definition runs_sent (reqs : list AgentRequest) : nat :=
  length (filter (fun q => match q with PostRun _ => true | _ => false end) reqs).

(** The alerts among what was shown. *)
Definition alerts (effs : list Effect) : nat :=
  length (filter (fun e => match e with Alert _ => true | _ => false end) effs).

End AgentList.

(** ** More about the page *)

Module Page.
Import App.

(** The socket callbacks among the actions, in order. *)
Fixpoint socket_events (acts : list Action) : list EventStream.SocketEvent :=
  match acts with
  | [] => []
  | Socket ev :: rest => ev :: socket_events rest
  | _ :: rest => socket_events rest
  end.

(** The instance a suspended call belongs to. *)
Definition pending_instance (p : Pending) : nat :=
  match p with
  | AwaitGet inst _ => inst
  | AwaitCancel inst _ => inst
  | AwaitInput inst _ => inst
  end.

(** Instance numbers are given out in order: those in use are below the
    next one. *)
Definition ids_in_order (w : World) : Prop :=
  (forall p, In p (pending w) -> pending_instance p < next_instance w)
  /\ (forall m, mounted w = Some m -> instance m < next_instance w).

(** The run view is on the page exactly when [App] renders it, with the
    selected run as its [runId]. *)
Definition view_matches_selection (w : World) : Prop :=
  option_map runId (mounted w) = detail_prop (viewMode w) (activeRunId w).

(** Every instance number from [k] on is still to be given out or
    belongs to the view on the page: no view older than [k] is mounted. *)
Definition views_from (k : nat) (w : World) : Prop :=
  k <= next_instance w
  /\ (forall m, mounted w = Some m -> k <= instance m).

End Page.

(** ** Counting over a run of the stream hook *)

Module StreamTrace.
Import EventStream.

(** The [console.error] entries among the effects. *)
Definition errors (effs : list Effect) : nat :=
  length (filter (fun e => match e with
                           | Console (ConsoleError _) => true
                           | _ => false
                           end) effs).


(** The callback is the arrival of a message. *)
Definition is_message (ev : SocketEvent) : bool :=
  match ev with
  | OnMessage _ => true
  | _ => false
  end.

Section Hook.

Variable JSON_parse : string -> Parsed.

(** The messages of the trace whose payload does not parse. *)
Fixpoint dropped (evs : list SocketEvent) : nat :=
  match evs with
  | [] => 0
  | OnMessage data :: rest =>
      match JSON_parse data with
      | ParseOk _ => dropped rest
      | ParseThrows _ => S (dropped rest)
      end
  | _ :: rest => dropped rest
  end.

End Hook.

End StreamTrace.

(** ** Sample data used by the examples *)

Module Samples.

Definition ev (i k : string) : Event :=
  {| id := i; run_id := "run-a"; agent_id := "agent-1";
     timestamp := "2025-01-01T00:00:00Z"; kind := k; payload := "{}" |}.

(** A snapshot of run A once it has completed. *)
Definition snapshot_completed : RunData :=
  {| data_events := Some [ev "1" "run_started"; ev "2" "run_completed"];
     data_status := "RunCompleted" |}.

(** The next snapshot of the same run, one event later. *)
Definition snapshot_later : RunData :=
  {| data_events :=
       Some [ev "1" "run_started"; ev "2" "run_completed"; ev "3" "action_taken"];
     data_status := "ActionTaken" |}.

(** A snapshot of another run, still going. *)
Definition snapshot_b : RunData :=
  {| data_events :=
       Some [{| id := "1"; run_id := "run-b"; agent_id := "agent-2";
                timestamp := "2025-01-01T00:05:00Z"; kind := "run_started";
                payload := "{}" |}];
     data_status := "RunStarted" |}.

Definition ok (d : RunData) : Fetched := Response true (JsonData d).

(** An error answer of the backend, e.g. 500 with an empty body. *)
Definition http_error : Fetched :=
  Response false (JsonThrows "SyntaxError: Unexpected end of JSON input").

(** Stand-in for [JSON.parse] on the sample messages: a message that
    starts with an opening brace is read as an event with the message as
    its id, the message [42] as the number it is, anything else throws. *)
Definition sample_parse (data : string) : EventStream.Parsed :=
  if prefix "{" data
  then EventStream.ParseOk (EventStream.IsEvent (ev data "action_taken"))
  else if data =? "42"
  then EventStream.ParseOk (EventStream.NotEvent "42")
  else EventStream.ParseThrows "SyntaxError: Unexpected token".

End Samples.


(** ** Sample sessions on the page *)

Module Scenarios.
Import App.

(** The page after the given actions (the untouched page if one of them
    is not possible). *)
Definition page_after (acts : list Action) : World :=
  match steps Samples.sample_parse init acts with
  | Some w => w
  | None => init
  end.

Definition view_of (w : World) : Mounted :=
  match mounted w with
  | Some m => m
  | None => {| instance := 0; runId := ""; state := RunDetail.initial |}
  end.

(** Run A is opened, then run B; the first snapshot of B arrives while the
    fetch for A is still in flight. *)
Definition switch_a_to_b : list Action :=
  [SelectRun "run-a"; SelectRun "run-b"; Settle 1 (Samples.ok Samples.snapshot_b)].

(** The delayed answer for run A. *)
Definition late_answer_a : Fetched := Samples.ok Samples.snapshot_completed.

(** Run A is opened and shown as completed; then run B is selected and
    nothing has been answered for it yet. *)
Definition completed_then_switch : list Action :=
  [SelectRun "run-a"; Settle 0 (Samples.ok Samples.snapshot_completed);
   SelectRun "run-b"].

(** Run A is opened and shown as completed. *)
Definition completed_shown : list Action :=
  [SelectRun "run-a"; Settle 0 (Samples.ok Samples.snapshot_completed)].

(** Run A is opened and its first fetch is still in flight. *)
Definition just_opened : list Action := [SelectRun "run-a"].

End Scenarios.

(** ** More sample sessions *)

Module MoreSamples.

(** The socket opens and a message arrives. *)
Definition closing_trace : list EventStream.SocketEvent :=
  [EventStream.OnOpen; EventStream.OnMessage "{1"].

(** Two more messages, the second of which is not JSON. *)
Definition late_messages : list EventStream.SocketEvent :=
  [EventStream.OnMessage "{2"; EventStream.OnMessage "oops"].

(** Two messages with different payloads. *)
Definition two_messages : list EventStream.SocketEvent :=
  [EventStream.OnMessage "{1"; EventStream.OnMessage "{2"].

(** Run A is opened and the operator goes back to the live feed while the
    first fetch is still in flight. *)
Definition opened_then_left : list App.Action :=
  [App.SelectRun "run-a"; App.ClickLiveFeed].

(** Run B is opened and its first snapshot is shown. *)
Definition reopened_and_shown : list App.Action :=
  [App.SelectRun "run-b"; App.Settle 1 (Samples.ok Samples.snapshot_b)].

(** Messages arrive before, while and after a run is looked at. *)
Definition feed_and_history : list App.Action :=
  [App.Socket (EventStream.OnMessage "{1"); App.SelectRun "run-a";
   App.Socket (EventStream.OnMessage "oops");
   App.Socket (EventStream.OnMessage "{2"); App.ClickLiveFeed].

(** Run A is opened and a confirmed click on Stop has sent the cancel
    command. *)
Definition cancel_sent : list App.Action :=
  [App.SelectRun "run-a"; App.ClickStop true].

(** The list of runs after its first fetch was rejected. *)
Definition list_after_failure : RunList.World :=
  {| RunList.state := RunList.initial; RunList.in_flight := 0 |}.

Definition planner : AgentList.Agent :=
  {| AgentList.id := "agent-1"; AgentList.name := "Planner";
     AgentList.description := "Plans the work"; AgentList.trigger := "{}" |}.

(** The agents arrive, the operator triggers one, the backend refuses. *)
Definition trigger_refused : list AgentList.Action :=
  [AgentList.SettleAgents 0
     (Answers true (inl {| AgentList.data_agents := Some [planner] |}));
   AgentList.ClickRun "agent-1";
   AgentList.SettleRun 0 (Answers false (inl tt))].

Definition agents_after (acts : list AgentList.Action) : AgentList.World :=
  match AgentList.steps AgentList.init acts with
  | Some w => w
  | None => AgentList.init
  end.

End MoreSamples.

(** * Properties *)

(** ** The live buffer (useEventStream.ts) *)

Module StreamFacts.
Import EventStream.

Section Hook.

Variable JSON_parse : string -> Parsed.

(* The proofs below never look inside the constant. *)
Local Opaque capacity.

Lemma firstn_app_firstn {A : Type} (n : nat) (l1 l2 : list A) :
  firstn n (l1 ++ firstn n l2) = firstn n (l1 ++ l2).
Proof.
  rewrite !firstn_app, firstn_firstn.
  f_equal. f_equal. lia.
Qed.

Lemma run_app (s : State) (evs1 evs2 : list SocketEvent) :
  run JSON_parse s (evs1 ++ evs2) =
  (fst (run JSON_parse (fst (run JSON_parse s evs1)) evs2),
   snd (run JSON_parse s evs1)
   ++ snd (run JSON_parse (fst (run JSON_parse s evs1)) evs2)).
Proof.
  revert s. induction evs1 as [|ev evs1 IH]; intros s; simpl.
  - now destruct (run JSON_parse s evs2).
  - destruct (handle JSON_parse s ev) as [s1 out1].
    rewrite IH.
    destruct (run JSON_parse s1 evs1) as [s2 out2]; simpl.
    now rewrite app_assoc.
Qed.

(** From a buffer within capacity, the buffer after a trace is the
    newest-first list of arrivals in front of the old buffer, cut at the
    capacity. *)
Lemma run_events (evs : list SocketEvent) :
  forall s : State,
    length (events s) <= capacity ->
    events (fst (run JSON_parse s evs)) =
    firstn capacity (rev (arrived JSON_parse evs) ++ events s).
Proof.
  induction evs as [|ev evs IH]; intros s Hs.
  - cbn [run arrived rev app fst]. symmetry. now apply firstn_all2.
  - cbn [run arrived].
    destruct (handle JSON_parse s ev) as [s1 out1] eqn:Hh.
    specialize (IH s1).
    destruct (run JSON_parse s1 evs) as [s2 out2]; cbn [fst] in *.
    destruct ev as [|data|]; cbn [handle onopen onclose] in Hh.
    + injection Hh as <- _. now apply IH.
    + unfold onmessage in Hh.
      destruct (JSON_parse data) as [event|e].
      * injection Hh as <- _. cbn [events] in IH.
        rewrite IH by apply firstn_le_length.
        rewrite firstn_app_firstn.
        cbn [rev]. now rewrite <- app_assoc.
      * injection Hh as <- _. now apply IH.
    + injection Hh as <- _. now apply IH.
Qed.

(** C3. For every sequence of socket callbacks, the live buffer holds
    at most 100 events and is exactly the newest-first list of the
    events that arrived, cut after the 100 most recent; one more
    message either is dropped (its payload does not parse) or is put in
    front, the entry beyond the capacity falling off the far end. *)
Theorem C3_buffer_bounded_most_recent (evs : list SocketEvent) (data : string) :
  let buffer := events (fst (run JSON_parse initial evs)) in
  length buffer <= 100
  /\ buffer = firstn 100 (rev (arrived JSON_parse evs))
  /\ events (fst (run JSON_parse initial (evs ++ [OnMessage data]))) =
     match JSON_parse data with
     | ParseOk event => firstn 100 (event :: buffer)
     | ParseThrows _ => buffer
     end.
Proof.
  change 100 with capacity.
  assert (Hbuf : events (fst (run JSON_parse initial evs)) =
                 firstn capacity (rev (arrived JSON_parse evs))).
  { rewrite run_events by (cbn; lia). cbn [initial events].
    now rewrite app_nil_r. }
  cbv zeta. split; [|split].
  - rewrite Hbuf. apply firstn_le_length.
  - exact Hbuf.
  - rewrite run_app. cbn [fst run handle].
    unfold onmessage.
    now destruct (JSON_parse data).
Qed.


End Hook.


End StreamFacts.

(** ** The run view (components/RunDetail.tsx) *)

Module RunDetailFacts.
Import RunDetail.

Lemma poll_app (s : State) (rs more : list Fetched) :
  poll s (rs ++ more) = poll (poll s rs) more.
Proof. apply fold_left_app. Qed.

(** The status after a run of responses: that of the last one applied,
    or the one shown before. *)
Lemma poll_status (rs : list Fetched) :
  forall s : State,
    status (poll s rs) =
    match last_applied rs with
    | Some d => data_status d
    | None => status s
    end.
Proof.
  induction rs as [|r rs IH]; intros s; [reflexivity|].
  cbn [poll fold_left last_applied]. fold (poll (apply_fetch s r) rs).
  rewrite IH.
  destruct (last_applied rs) as [d|]; [reflexivity|].
  destruct r as [err|[|] [d|err]]; reflexivity.
Qed.

(** C1, as stated, fails: after a snapshot with status [RunCompleted]
    has been shown, the next successful snapshot replaces the status. *)
Lemma C1_terminal_not_latched :
  ~ (forall rs more : list Fetched,
        existsb shows_terminal rs = true ->
        derived (rs ++ more) = derived rs).
Proof.
  intros H.
  specialize (H [Samples.ok Samples.snapshot_completed]
                [Samples.ok Samples.snapshot_later] eq_refl).
  vm_compute in H. discriminate H.
Qed.

(** C1, amended. The status shown is that of the last response applied:
    further responses change it exactly when one of them is applied, a
    final status or not; responses that fail or are not [ok] leave it as it
    was. *)
Theorem C1_status_follows_last_applied (rs more : list Fetched) :
  derived (rs ++ more) =
  match last_applied more with
  | Some d => data_status d
  | None => derived rs
  end.
Proof.
  unfold derived. rewrite poll_app. apply poll_status.
Qed.

(** The function [submitInput] by itself: it sends nothing exactly when
    the typed value is empty, and then changes nothing; otherwise it sends
    one POST with the value.  It does not look at the status. *)
Lemma submitInput_sends_iff_value (s : State) (rid st : string) :
  (snd (submitInput s rid) = [] <-> inputValue s = "")
  /\ submitInput s rid =
     (if inputValue s =? "" then (s, [])
      else (setLoading true s, [PostInput rid (inputValue s)]))
  /\ snd (submitInput (setStatus st s) rid) = snd (submitInput s rid).
Proof.
  unfold submitInput, truthy. cbn [setStatus inputValue].
  rewrite negb_involutive.
  destruct (String.eqb_spec (inputValue s) "") as [He|Hne].
  - repeat split; auto.
  - repeat split; auto.
    + intros Hsnd. discriminate Hsnd.
    + intros He. contradiction.
Qed.

(** The continuation of [submitInput] does not look at the response: an
    error status is handled like a success. *)
Remark submitInput_resume_ignores_status (body : Json) :
  submitInput_resume (Response false body) = submitInput_resume (Response true body).
Proof. reflexivity. Qed.

End RunDetailFacts.

(** ** The page (App.tsx with the run view and the requests in flight) *)

Module AppFacts.
Import App.

Section Step.

Variable JSON_parse : string -> EventStream.Parsed.

Lemma steps_reachable (acts : list Action) :
  forall w w' : World,
    reachable JSON_parse w ->
    steps JSON_parse w acts = Some w' ->
    reachable JSON_parse w'.
Proof.
  induction acts as [|a acts IH]; intros w w' Hw Hsteps; cbn [steps] in Hsteps.
  - now injection Hsteps as <-.
  - destruct (step JSON_parse w a) as [w1|] eqn:Hstep; [|discriminate].
    eapply IH; [|exact Hsteps].
    eapply reachable_step; eauto.
Qed.

Lemma prompt_hidden (m : Mounted) :
  RunDetail.inputPrompt (state m) = None ->
  prompt_shown m = false /\ send_enabled m = false.
Proof.
  intros Hp. unfold prompt_shown, send_enabled, RunDetail.render.
  cbn [RunDetail.prompt_block]. now rewrite Hp.
Qed.

Lemma invariant_init : invariant init.
Proof.
  unfold invariant. cbn.
  split; [reflexivity|split; [|reflexivity]].
  intros m Hm. discriminate Hm.
Qed.

Lemma invariant_call_fetchDetails (inst : nat) (rid : string) (w : World) :
  invariant w -> invariant (call_fetchDetails inst rid w).
Proof. intros H. exact H. Qed.

Lemma invariant_log (out : list ConsoleEntry) (w : World) :
  invariant w -> invariant (log out w).
Proof. intros H. exact H. Qed.

Lemma invariant_set_pending (ps : list Pending) (w : World) :
  invariant w -> invariant (set_pending ps w).
Proof. intros H. exact H. Qed.

Lemma invariant_commit (mode : ViewMode) (active : option string) (w : World) :
  active = None \/ mode = History ->
  invariant w -> invariant (commit mode active w).
Proof.
  intros Hmode (Hint & Hsel & Hin). unfold commit.
  destruct (detail_prop mode active) as [rid|] eqn:Hprop.
  - assert (mode = History /\ active = Some rid) as [-> ->].
    { unfold detail_prop in Hprop.
      destruct mode; [discriminate|].
      destruct active as [r|]; [|discriminate].
      destruct (truthy r); [|discriminate].
      injection Hprop as ->. auto. }
    destruct (mounted w) as [m|] eqn:Hm.
    + destruct (String.eqb_spec (runId m) rid) as [<-|Hne].
      * unfold invariant; cbn.
        split; [exact Hint|split; [|exact Hin]].
        intros m' [= <-]. destruct (Hsel m eq_refl) as (_ & _ & Hp & Hv). auto.
      * unfold invariant; cbn. split; [reflexivity|split; [|exact Hin]].
        intros m' [= <-]. cbn. destruct (Hsel m eq_refl) as (_ & _ & Hp & Hv). auto.
    + unfold invariant; cbn. split; [reflexivity|split; [|exact Hin]].
      intros m' [= <-]. cbn. auto.
  - unfold invariant; cbn. split; [reflexivity|split; [|exact Hin]].
    intros m' Hm'. discriminate Hm'.
Qed.

Lemma invariant_update (inst : nat) (f : RunDetail.State -> RunDetail.State) (w : World) :
  (forall s,
      RunDetail.inputPrompt s = None -> RunDetail.inputValue s = "" ->
      RunDetail.inputPrompt (f s) = None /\ RunDetail.inputValue (f s) = "") ->
  invariant w ->
  invariant (set_mounted (update_instance inst f (mounted w)) w).
Proof.
  intros Hf (Hint & Hsel & Hin). unfold invariant; cbn.
  destruct (mounted w) as [m|] eqn:Hm; cbn.
  - destruct (Hsel m eq_refl) as (Hv & Ha & Hp & Hi).
    destruct (Nat.eqb (instance m) inst); cbn.
    + split; [exact Hint|split; [|exact Hin]].
      intros m' [= <-]. cbn. destruct (Hf _ Hp Hi). auto.
    + split; [exact Hint|split; [|exact Hin]].
      intros m' [= <-]. auto.
  - split; [exact Hint|split; [|exact Hin]].
    intros m' Hm'. discriminate Hm'.
Qed.

Lemma invariant_step (w w' : World) (a : Action) :
  invariant w -> step JSON_parse w a = Some w' -> invariant w'.
Proof.
  intros Hinv Hstep.
  destruct a as [|rid| |confirmed|value| | |n r|ev]; cbn [step] in Hstep.
  - injection Hstep as <-. apply invariant_commit; auto.
  - injection Hstep as <-. apply invariant_commit; auto.
  - destruct (interval w); [|discriminate].
    destruct (mounted w); [|discriminate].
    injection Hstep as <-. now apply invariant_call_fetchDetails.
  - destruct (mounted w) as [m|] eqn:Hm; [|discriminate].
    destruct (RunDetail.stop_shown _); [|discriminate].
    destruct confirmed; cbn in Hstep; injection Hstep as <-; [|exact Hinv].
    destruct Hinv as (Hint & Hsel & Hin).
    unfold invariant; cbn. auto.
  - destruct (mounted w) as [m|] eqn:Hm; [|discriminate].
    destruct Hinv as (_ & Hsel & _).
    destruct (Hsel m Hm) as (_ & _ & Hp & _).
    destruct (prompt_hidden m Hp) as [Hhid _].
    rewrite Hhid in Hstep. discriminate Hstep.
  - destruct (mounted w) as [m|] eqn:Hm; [|discriminate].
    destruct Hinv as (_ & Hsel & _).
    destruct (Hsel m Hm) as (_ & _ & Hp & _).
    destruct (prompt_hidden m Hp) as [Hhid _].
    rewrite Hhid in Hstep. discriminate Hstep.
  - destruct (mounted w) as [m|] eqn:Hm; [|discriminate].
    destruct Hinv as (_ & Hsel & _).
    destruct (Hsel m Hm) as (_ & _ & Hp & _).
    destruct (prompt_hidden m Hp) as [_ Hhid].
    rewrite Hhid in Hstep. discriminate Hstep.
  - destruct (nth_error (pending w) n) as [p|]; [|discriminate].
    injection Hstep as <-.
    apply (invariant_set_pending (drop_nth n (pending w))) in Hinv.
    set (w0 := set_pending _ w) in *. clearbody w0.
    destruct p as [inst rid|inst rid|inst rid]; unfold settle.
    + destruct (RunDetail.fetchDetails_resume r) as [f out] eqn:Hr.
      apply invariant_log, invariant_update; [|exact Hinv].
      intros s Hp Hv.
      destruct r as [err|[|] [d|err]]; injection Hr as <- _; auto.
    + destruct (RunDetail.cancelRun_resume r) as [again out].
      destruct again; [apply invariant_call_fetchDetails|];
        now apply invariant_log.
    + destruct (RunDetail.submitInput_resume r) as [[f again] out] eqn:Hr.
      assert (invariant (log out (set_mounted (update_instance inst f (mounted w0)) w0))).
      { apply invariant_log, invariant_update; [|exact Hinv].
        intros s Hp Hv.
        destruct r as [err|ok body]; injection Hr as <- _ _; auto. }
      destruct again; [now apply invariant_call_fetchDetails|assumption].
  - destruct (EventStream.handle JSON_parse (live w) ev) as [l effs].
    injection Hstep as <-. exact Hinv.
Qed.

Lemma reachable_invariant (w : World) :
  reachable JSON_parse w -> invariant w.
Proof.
  induction 1 as [|w w' a _ IH Hstep].
  - apply invariant_init.
  - eapply invariant_step; eauto.
Qed.


(** How one step can change the state of the run view that stays on the
    page: it is the same instance, and its state is changed by typing, by
    [submitInput], or by the continuation of one of its own calls. *)
Lemma step_state (w w' : World) (a : Action) (m m' : Mounted) :
  step JSON_parse w a = Some w' ->
  mounted w = Some m ->
  mounted w' = Some m' ->
  instance m' = instance m
  /\ (state m' = state m
      \/ (exists v, a = TypeInput v
                    /\ state m' = RunDetail.setInputValue v (state m))
      \/ ((a = PressEnter \/ a = ClickSend)
          /\ state m' = fst (RunDetail.submitInput (state m) (runId m)))
      \/ (exists n r rid,
            a = Settle n r
            /\ nth_error (pending w) n = Some (AwaitGet (instance m) rid)
            /\ state m' = RunDetail.apply_fetch (state m) r)
      \/ (exists n r rid,
            a = Settle n r
            /\ nth_error (pending w) n = Some (AwaitInput (instance m) rid)
            /\ state m' = fst (fst (RunDetail.submitInput_resume r)) (state m))).
Proof.
  intros Hstep Hm Hm'.
  destruct a as [|rid| |confirmed|value| | |n r|ev]; cbn [step] in Hstep.
  - injection Hstep as <-. discriminate Hm'.
  - injection Hstep as <-. unfold handleSelectRun, commit in Hm'.
    rewrite Hm in Hm'.
    destruct (detail_prop History (Some rid)) as [rid'|]; [|discriminate].
    destruct (runId m =? rid')%string; injection Hm' as <-; auto.
  - rewrite Hm in Hstep. destruct (interval w); [|discriminate].
    injection Hstep as <-. cbn in Hm'. rewrite Hm in Hm'.
    injection Hm' as <-. auto.
  - rewrite Hm in Hstep.
    destruct (RunDetail.stop_shown _); [|discriminate].
    destruct confirmed; cbn in Hstep; injection Hstep as <-;
      cbn in Hm'; rewrite Hm in Hm'; injection Hm' as <-; auto.
  - rewrite Hm in Hstep. destruct (prompt_shown m); [|discriminate].
    injection Hstep as <-. injection Hm' as <-. cbn.
    split; [reflexivity|]. right; left. exists value. auto.
  - rewrite Hm in Hstep. destruct (prompt_shown m); [|discriminate].
    injection Hstep as <-. unfold call_submitInput in Hm'.
    destruct (RunDetail.submitInput (state m) (runId m)) as [s' reqs].
    destruct reqs; injection Hm' as <-; cbn;
      (split; [reflexivity|]; right; right; left; auto).
  - rewrite Hm in Hstep. destruct (send_enabled m); [|discriminate].
    injection Hstep as <-. unfold call_submitInput in Hm'.
    destruct (RunDetail.submitInput (state m) (runId m)) as [s' reqs].
    destruct reqs; injection Hm' as <-; cbn;
      (split; [reflexivity|]; right; right; left; auto).
  - destruct (nth_error (pending w) n) as [p|] eqn:Hp; [|discriminate].
    injection Hstep as <-.
    destruct p as [inst rid|inst rid|inst rid]; unfold settle in Hm'.
    + destruct (RunDetail.fetchDetails_resume r) as [f out] eqn:Hr.
      cbn in Hm'. rewrite Hm in Hm'. cbn in Hm'.
      destruct (Nat.eqb_spec (instance m) inst) as [<-|Hne];
        injection Hm' as <-; cbn; auto.
      split; [reflexivity|]. do 3 right. left.
      exists n, r, rid. unfold RunDetail.apply_fetch. rewrite Hr. auto.
    + destruct (RunDetail.cancelRun_resume r) as [again out].
      destruct again; cbn in Hm'; rewrite Hm in Hm'; injection Hm' as <-; auto.
    + destruct (RunDetail.submitInput_resume r) as [[f again] out] eqn:Hr.
      assert (Hup : update_instance inst f (mounted w) = Some m').
      { destruct again; exact Hm'. }
      rewrite Hm in Hup. cbn in Hup.
      destruct (Nat.eqb_spec (instance m) inst) as [<-|Hne];
        injection Hup as <-; cbn; auto.
      split; [reflexivity|]. do 4 right.
      exists n, r, rid. rewrite Hr. auto.
  - destruct (EventStream.handle JSON_parse (live w) ev) as [l effs].
    injection Hstep as <-. cbn in Hm'. rewrite Hm in Hm'.
    injection Hm' as <-. auto.
Qed.

(** One step leaves the prompt of the run view as it is or clears it. *)
Lemma step_inputPrompt (w w' : World) (a : Action) (m m' : Mounted) :
  step JSON_parse w a = Some w' ->
  mounted w = Some m ->
  mounted w' = Some m' ->
  RunDetail.inputPrompt (state m') = RunDetail.inputPrompt (state m)
  \/ RunDetail.inputPrompt (state m') = None.
Proof.
  intros Hstep Hm Hm'.
  destruct (step_state _ _ _ _ _ Hstep Hm Hm')
    as (_ & [->|[(v & _ & ->)|[(_ & ->)|[(n & r & rid & _ & _ & ->)
                                         |(n & r & rid & _ & _ & ->)]]]]).
  - now left.
  - now left.
  - left. unfold RunDetail.submitInput.
    now destruct (negb (truthy (RunDetail.inputValue (state m)))).
  - left. unfold RunDetail.apply_fetch.
    now destruct r as [err|[|] [d|err]].
  - destruct r as [err|ok body]; cbn; auto.
Qed.

(** One step that applies no snapshot leaves the status shown as it is. *)
Lemma step_status (w w' : World) (a : Action) (m m' : Mounted) :
  step JSON_parse w a = Some w' ->
  mounted w = Some m ->
  mounted w' = Some m' ->
  applies_snapshot w a = false ->
  RunDetail.status (state m') = RunDetail.status (state m).
Proof.
  intros Hstep Hm Hm' Hno.
  destruct (step_state _ _ _ _ _ Hstep Hm Hm')
    as (_ & [->|[(v & _ & ->)|[(_ & ->)|[(n & r & rid & -> & Hp & ->)
                                         |(n & r & rid & _ & _ & ->)]]]]).
  - reflexivity.
  - reflexivity.
  - unfold RunDetail.submitInput.
    now destruct (negb (truthy (RunDetail.inputValue (state m)))).
  - unfold RunDetail.apply_fetch.
    destruct r as [err|[|] [d|err]]; try reflexivity.
    cbn [applies_snapshot] in Hno. rewrite Hp, Hm, Nat.eqb_refl in Hno.
    discriminate Hno.
  - now destruct r as [err|ok body].
Qed.


(** The statuses the list shows as completed or failed are not among
    those for which the run view hides its Stop button. *)
Remark list_statuses_keep_stop_button :
  RunList.badge "run_completed" = RunList.Green
  /\ RunList.badge "run_failed" = RunList.Red
  /\ RunDetail.stop_button "run_completed" = true
  /\ RunDetail.stop_button "run_failed" = true.
Proof. repeat split. Qed.

Lemma stop_button_terminal (st : string) :
  RunDetail.stop_button st = negb (RunDetail.terminal_status st).
Proof.
  unfold RunDetail.stop_button, RunDetail.terminal_status.
  now rewrite !negb_orb.
Qed.

Lemma commit_outbox (mode : ViewMode) (active : option string) (w : World) :
  cancels (outbox (commit mode active w)) = cancels (outbox w).
Proof.
  unfold commit.
  destruct (detail_prop mode active) as [rid|]; [|reflexivity].
  destruct (mounted w) as [m|]; [|reflexivity].
  now destruct (runId m =? rid)%string.
Qed.

Lemma call_submitInput_outbox (m : Mounted) (w : World) :
  cancels (outbox (call_submitInput m w)) = cancels (outbox w).
Proof.
  unfold call_submitInput, RunDetail.submitInput.
  now destruct (negb (truthy (RunDetail.inputValue (state m)))).
Qed.

Lemma settle_outbox (p : Pending) (r : Fetched) (w : World) :
  cancels (outbox (settle p r w)) = cancels (outbox w).
Proof.
  destruct p as [inst rid|inst rid|inst rid]; unfold settle.
  - now destruct (RunDetail.fetchDetails_resume r).
  - destruct (RunDetail.cancelRun_resume r) as [[|] out]; reflexivity.
  - destruct (RunDetail.submitInput_resume r) as [[f [|]] out]; reflexivity.
Qed.

(** A step adds a cancel command only when the operator clicks a Stop
    button that is on the page and confirms. *)
Lemma step_cancels (w w' : World) (a : Action) :
  step JSON_parse w a = Some w' ->
  cancels (outbox w') = cancels (outbox w)
  \/ exists m,
      mounted w = Some m
      /\ RunDetail.stop_shown (RunDetail.render (state m)) = true
      /\ a = ClickStop true
      /\ outbox w' = PostCancel (runId m) :: outbox w.
Proof.
  intros Hstep.
  destruct a as [|rid| |confirmed|value| | |n r|ev]; cbn [step] in Hstep.
  - injection Hstep as <-. left. apply commit_outbox.
  - injection Hstep as <-. left. apply commit_outbox.
  - destruct (interval w); [|discriminate].
    destruct (mounted w); [|discriminate].
    injection Hstep as <-. now left.
  - destruct (mounted w) as [m|]; [|discriminate].
    destruct (RunDetail.stop_shown _) eqn:Hshown; [|discriminate].
    destruct confirmed; cbn in Hstep; injection Hstep as <-.
    + right. exists m. auto.
    + now left.
  - destruct (mounted w) as [m|]; [|discriminate].
    destruct (prompt_shown m); [|discriminate].
    injection Hstep as <-. now left.
  - destruct (mounted w) as [m|]; [|discriminate].
    destruct (prompt_shown m); [|discriminate].
    injection Hstep as <-. left. apply call_submitInput_outbox.
  - destruct (mounted w) as [m|]; [|discriminate].
    destruct (send_enabled m); [|discriminate].
    injection Hstep as <-. left. apply call_submitInput_outbox.
  - destruct (nth_error (pending w) n) as [p|]; [|discriminate].
    injection Hstep as <-. left. now rewrite settle_outbox.
  - destruct (EventStream.handle JSON_parse (live w) ev) as [l effs].
    injection Hstep as <-. now left.
Qed.

(** C6. While the status shown is a final one ([RunCompleted],
    [RunFailed], [Cancelled]) the Stop button is not rendered, a click on
    it is not possible, and no step of the page, whoever takes it, sends a
    cancel command. *)
Theorem C6_no_cancel_when_terminal (w : World) (m : Mounted) :
  mounted w = Some m ->
  RunDetail.terminal_status (RunDetail.status (state m)) = true ->
  RunDetail.stop_shown (RunDetail.render (state m)) = false
  /\ (forall confirmed, step JSON_parse w (ClickStop confirmed) = None)
  /\ (forall a w', step JSON_parse w a = Some w' ->
                   cancels (outbox w') = cancels (outbox w)).
Proof.
  intros Hm Hterm.
  assert (Hhidden : RunDetail.stop_shown (RunDetail.render (state m)) = false).
  { cbn. now rewrite stop_button_terminal, Hterm. }
  split; [exact Hhidden|split].
  - intros confirmed. cbn [step]. now rewrite Hm, Hhidden.
  - intros a w' Hstep.
    destruct (step_cancels _ _ _ Hstep) as [Heq|(m0 & Hm0 & Hshown & _)];
      [exact Heq|].
    rewrite Hm in Hm0. injection Hm0 as <-.
    rewrite Hhidden in Hshown. discriminate Hshown.
Qed.

(** C7. When a [fetchDetails] of the run view on the page settles: a
    rejected fetch or an unreadable body is caught and logged and the state
    of the view is unchanged; a response that is not [ok] changes nothing;
    a readable [ok] response sets the events to [data.events] (to the empty
    list when that is missing) and the status to [data.status], whatever
    was shown before.  The live buffer is neither read nor written. *)
Theorem C7_failure_keeps_success_replaces
    (w : World) (m : Mounted) (n : nat) (rid : string) (r : Fetched) :
  mounted w = Some m ->
  nth_error (pending w) n = Some (AwaitGet (instance m) rid) ->
  exists w' m',
    step JSON_parse w (Settle n r) = Some w'
    /\ mounted w' = Some m'
    /\ live w' = live w
    /\ outbox w' = outbox w
    /\ match r with
       | Response true (JsonData data) =>
           RunDetail.events (state m') =
             match data_events data with
             | Some evs => evs
             | None => []
             end
           /\ RunDetail.status (state m') = data_status data
           /\ console w' = console w
       | Response true (JsonThrows err) | Rejected err =>
           state m' = state m
           /\ console w' = ConsoleError [err] :: console w
       | Response false _ =>
           state m' = state m /\ console w' = console w
       end.
Proof.
  intros Hm Hp. cbn [step]. rewrite Hp. unfold settle.
  destruct r as [err|[|] [data|err]]; cbn; rewrite Hm; cbn;
    rewrite Nat.eqb_refl; eexists; eexists;
    (split; [reflexivity|]); (split; [reflexivity|]); cbn;
    repeat split; now destruct m.
Qed.

(** C2, amended. On every page that can be reached, a tick of the timer
    fetches the run that is selected now, so a change of selection ends
    the polling of the run selected before.  A response, however, is not
    compared with the selection: a readable [ok] response replaces the
    events and the status of the view whenever the view that asked is
    still the one on the page, for whatever run it asked; it is lost only
    when that view has been unmounted. *)
Theorem C2_timer_follows_selection_response_unchecked (w : World) :
  reachable JSON_parse w ->
  (forall w',
      step JSON_parse w IntervalTick = Some w' ->
      exists rid,
        viewMode w = History
        /\ activeRunId w = Some rid
        /\ outbox w' = GetRun rid :: outbox w)
  /\ (forall m n inst rid data,
        mounted w = Some m ->
        nth_error (pending w) n = Some (AwaitGet inst rid) ->
        exists w' m',
          step JSON_parse w (Settle n (Response true (JsonData data))) = Some w'
          /\ mounted w' = Some m'
          /\ runId m' = runId m
          /\ activeRunId w' = activeRunId w
          /\ state m' =
             if Nat.eqb (instance m) inst
             then RunDetail.setStatus (data_status data)
                    (RunDetail.setEvents (RunDetail.events_or_empty data) (state m))
             else state m).
Proof.
  intros Hreach.
  destruct (reachable_invariant w Hreach) as (Hint & Hsel & _).
  split.
  - intros w' Hstep. cbn [step] in Hstep.
    destruct (interval w) as [rid|] eqn:Hi; [|discriminate].
    destruct (mounted w) as [m|] eqn:Hm; [|discriminate].
    injection Hstep as <-.
    destruct (Hsel m eq_refl) as (Hv & Ha & _).
    cbn in Hint. injection Hint as ->.
    exists (runId m). auto.
  - intros m n inst rid data Hm Hp. cbn [step]. rewrite Hp.
    unfold settle. cbn. rewrite Hm. cbn.
    destruct (Nat.eqb (instance m) inst); eexists; eexists;
      repeat split.
Qed.

(** C9, amended. From the moment the run view is mounted until a
    snapshot is applied to it, whatever else happens on the page, the status
    it shows is [unknown]: a status of its own, not a final one, and its
    status line differs from that of every other status.  The Stop button
    is shown for it. *)
Theorem C9_unknown_until_first_snapshot (w : World) :
  fresh_view JSON_parse w ->
  exists m,
    mounted w = Some m
    /\ RunDetail.status (state m) = "unknown"
    /\ RunDetail.status RunDetail.initial = "unknown"
    /\ (forall st, st <> "unknown" ->
                   RunDetail.status_line (RunDetail.render (RunDetail.setStatus st (state m)))
                   <> RunDetail.status_line (RunDetail.render (state m)))
    /\ RunDetail.terminal_status (RunDetail.status (state m)) = false
    /\ RunDetail.stop_shown (RunDetail.render (state m)) = true.
Proof.
  intros Hfresh.
  assert (Hm : exists m, mounted w = Some m
                         /\ RunDetail.status (state m) = "unknown").
  { induction Hfresh as [w w' rid Hnone Hstep Hmounted
                        |w w' a _ IH Hstep Hmounted Hno].
    - cbn [step] in Hstep. injection Hstep as <-.
      unfold handleSelectRun, commit in *. rewrite Hnone in *.
      destruct (detail_prop History (Some rid)) as [rid'|].
      + eexists. split; reflexivity.
      + now contradiction Hmounted.
    - destruct IH as (m & Hm & Hst).
      destruct (mounted w') as [m'|] eqn:Hm'; [|now contradiction Hmounted].
      exists m'. split; [reflexivity|].
      rewrite <- Hst. eapply step_status; eauto. }
  destruct Hm as (m & Hm & Hst).
  exists m. split; [exact Hm|]. split; [exact Hst|]. split; [reflexivity|].
  cbn. rewrite Hst. repeat split.
  intros st Hne Heq. apply Hne.
  now injection Heq.
Qed.

(** C10. The prompt cell starts as [null]; a step of the page leaves it
    as it is or sets it to [null]; so on every page that can be reached
    the run view has no prompt, the prompt block is not rendered, its
    input, its Enter key and its Send button cannot be used, and no input
    submission has been sent. *)
Theorem C10_prompt_never_shown (w : World) :
  reachable JSON_parse w ->
  RunDetail.inputPrompt RunDetail.initial = None
  /\ (forall a w' m m',
        step JSON_parse w a = Some w' ->
        mounted w = Some m -> mounted w' = Some m' ->
        RunDetail.inputPrompt (state m') = RunDetail.inputPrompt (state m)
        \/ RunDetail.inputPrompt (state m') = None)
  /\ (forall m,
        mounted w = Some m ->
        RunDetail.inputPrompt (state m) = None
        /\ RunDetail.prompt_block (RunDetail.render (state m)) = None)
  /\ (forall value, step JSON_parse w (TypeInput value) = None)
  /\ step JSON_parse w PressEnter = None
  /\ step JSON_parse w ClickSend = None
  /\ inputs (outbox w) = [].
Proof.
  intros Hreach.
  destruct (reachable_invariant w Hreach) as (_ & Hsel & Hin).
  split; [reflexivity|]. split.
  { intros a w' m m'. apply step_inputPrompt. }
  split.
  { intros m Hm. destruct (Hsel m Hm) as (_ & _ & Hp & _).
    split; [exact Hp|]. cbn. now rewrite Hp. }
  assert (Hoff : forall m, mounted w = Some m ->
                           prompt_shown m = false /\ send_enabled m = false).
  { intros m Hm. destruct (Hsel m Hm) as (_ & _ & Hp & _).
    now apply prompt_hidden. }
  cbn [step].
  destruct (mounted w) as [m|]; [|auto].
  destruct (Hoff m eq_refl) as [-> ->]. auto.
Qed.

End Step.

(** C2, as stated, fails: run A is opened, then run B, whose snapshot is
    shown; the delayed answer for A then replaces what is shown for B. *)
Lemma C2_stale_response_overwrites :
  ~ (forall (w w' : World) (m : Mounted) (n inst : nat) (rid : string)
            (r : Fetched),
        reachable Samples.sample_parse w ->
        mounted w = Some m ->
        nth_error (pending w) n = Some (AwaitGet inst rid) ->
        rid <> runId m ->
        step Samples.sample_parse w (Settle n r) = Some w' ->
        mounted w' = Some m).
Proof.
  intros H.
  assert (Hr : reachable Samples.sample_parse
                 (Scenarios.page_after Scenarios.switch_a_to_b)).
  { apply (steps_reachable Samples.sample_parse Scenarios.switch_a_to_b init);
      [apply reachable_init|reflexivity]. }
  assert (Hne : "run-a" <> runId (Scenarios.view_of
                                    (Scenarios.page_after Scenarios.switch_a_to_b))).
  { cbn. discriminate. }
  pose proof (H _ _ _ 0 0 "run-a" Scenarios.late_answer_a
                Hr eq_refl eq_refl Hne eq_refl) as H'.
  vm_compute in H'. discriminate H'.
Qed.

(** C9, as stated, fails: run A is shown as completed, then run B is
    selected; its one fetch is still unanswered, and the status shown for
    it is [RunCompleted], not [unknown]. *)
Lemma C9_status_of_previous_run_shown :
  exists (w : World) (m : Mounted),
    steps Samples.sample_parse init Scenarios.completed_then_switch = Some w
    /\ activeRunId w = Some "run-b"
    /\ mounted w = Some m
    /\ runId m = "run-b"
    /\ outbox w = [GetRun "run-b"; GetRun "run-a"]
    /\ pending w = [AwaitGet (instance m) "run-b"]
    /\ RunDetail.status (state m) = "RunCompleted"
    /\ RunDetail.status (state m) <> "unknown".
Proof.
  eexists. eexists.
  split; [vm_compute; reflexivity|].
  cbn. repeat split. discriminate.
Qed.

(** C6 on the page that shows run A as completed. *)
Lemma C6_no_cancel_when_terminal_witness :
  mounted (Scenarios.page_after Scenarios.completed_shown)
  = Some (Scenarios.view_of (Scenarios.page_after Scenarios.completed_shown))
  /\ RunDetail.terminal_status
       (RunDetail.status
          (state (Scenarios.view_of
                    (Scenarios.page_after Scenarios.completed_shown)))) = true
  /\ step Samples.sample_parse
          (Scenarios.page_after Scenarios.completed_shown) (ClickStop true)
     = None.
Proof.
  split; [reflexivity|]. split; [reflexivity|].
  exact (proj1 (proj2 (C6_no_cancel_when_terminal Samples.sample_parse
                         (Scenarios.page_after Scenarios.completed_shown)
                         (Scenarios.view_of
                            (Scenarios.page_after Scenarios.completed_shown))
                         eq_refl eq_refl)) true).
Defined.

(** C7 on the first fetch of run A, rejected by the network. *)
Lemma C7_failure_keeps_success_replaces_witness :
  mounted (Scenarios.page_after Scenarios.just_opened)
  = Some (Scenarios.view_of (Scenarios.page_after Scenarios.just_opened))
  /\ nth_error (pending (Scenarios.page_after Scenarios.just_opened)) 0
     = Some (AwaitGet
               (instance (Scenarios.view_of
                            (Scenarios.page_after Scenarios.just_opened)))
               "run-a")
  /\ exists w' m',
      step Samples.sample_parse (Scenarios.page_after Scenarios.just_opened)
           (Settle 0 (Rejected "TypeError: Failed to fetch"))
      = Some w'
      /\ mounted w' = Some m'
      /\ live w' = live (Scenarios.page_after Scenarios.just_opened)
      /\ outbox w' = outbox (Scenarios.page_after Scenarios.just_opened)
      /\ state m'
         = state (Scenarios.view_of (Scenarios.page_after Scenarios.just_opened))
         /\ console w'
            = ConsoleError ["TypeError: Failed to fetch"]
                :: console (Scenarios.page_after Scenarios.just_opened).
Proof.
  split; [reflexivity|]. split; [reflexivity|].
  exact (C7_failure_keeps_success_replaces Samples.sample_parse
           (Scenarios.page_after Scenarios.just_opened)
           (Scenarios.view_of (Scenarios.page_after Scenarios.just_opened))
           0 "run-a" (Rejected "TypeError: Failed to fetch")
           eq_refl eq_refl).
Defined.

(** C2, amended, on the page reached by opening run A and then run B. *)
Lemma C2_timer_follows_selection_witness :
  reachable Samples.sample_parse (Scenarios.page_after Scenarios.switch_a_to_b)
  /\ forall w',
      step Samples.sample_parse
           (Scenarios.page_after Scenarios.switch_a_to_b) IntervalTick
      = Some w' ->
      exists rid,
        viewMode (Scenarios.page_after Scenarios.switch_a_to_b) = History
        /\ activeRunId (Scenarios.page_after Scenarios.switch_a_to_b) = Some rid
        /\ outbox w'
           = GetRun rid :: outbox (Scenarios.page_after Scenarios.switch_a_to_b).
Proof.
  assert (Hr : reachable Samples.sample_parse
                 (Scenarios.page_after Scenarios.switch_a_to_b)).
  { apply (steps_reachable Samples.sample_parse Scenarios.switch_a_to_b init);
      [apply reachable_init|reflexivity]. }
  split; [exact Hr|].
  exact (proj1 (C2_timer_follows_selection_response_unchecked
                  Samples.sample_parse _ Hr)).
Defined.

(** C9, amended, on a view whose first fetch got an error status and whose
    run was then changed in place. *)
Lemma C9_unknown_until_first_snapshot_witness :
  fresh_view Samples.sample_parse
    (Scenarios.page_after
       [SelectRun "run-a"; Settle 0 Samples.http_error; SelectRun "run-b"])
  /\ exists m,
      mounted (Scenarios.page_after
                 [SelectRun "run-a"; Settle 0 Samples.http_error;
                  SelectRun "run-b"]) = Some m
      /\ RunDetail.status (state m) = "unknown".
Proof.
  assert (Hf : fresh_view Samples.sample_parse
                 (Scenarios.page_after
                    [SelectRun "run-a"; Settle 0 Samples.http_error;
                     SelectRun "run-b"])).
  { apply (fresh_step Samples.sample_parse
             (Scenarios.page_after [SelectRun "run-a"; Settle 0 Samples.http_error])
             _ (SelectRun "run-b")); [|reflexivity|discriminate|reflexivity].
    apply (fresh_step Samples.sample_parse
             (Scenarios.page_after [SelectRun "run-a"])
             _ (Settle 0 Samples.http_error));
      [|reflexivity|discriminate|reflexivity].
    apply (fresh_mount Samples.sample_parse init _ "run-a");
      [reflexivity|reflexivity|discriminate]. }
  split; [exact Hf|].
  destruct (C9_unknown_until_first_snapshot Samples.sample_parse _ Hf)
    as (m & Hm & Hst & _).
  exists m. split; assumption.
Defined.

(** C10 on the page that shows run A as completed. *)
Lemma C10_prompt_never_shown_witness :
  reachable Samples.sample_parse (Scenarios.page_after Scenarios.completed_shown)
  /\ step Samples.sample_parse
          (Scenarios.page_after Scenarios.completed_shown) PressEnter = None
  /\ inputs (outbox (Scenarios.page_after Scenarios.completed_shown)) = [].
Proof.
  assert (Hr : reachable Samples.sample_parse
                 (Scenarios.page_after Scenarios.completed_shown)).
  { apply (steps_reachable Samples.sample_parse Scenarios.completed_shown init);
      [apply reachable_init|reflexivity]. }
  split; [exact Hr|].
  destruct (C10_prompt_never_shown Samples.sample_parse _ Hr)
    as (_ & _ & _ & _ & Henter & _ & Hin).
  split; assumption.
Defined.

End AppFacts.

(** ** More about the live buffer *)

Module StreamMore.
Import EventStream StreamTrace.

Section Hook.

Variable JSON_parse : string -> Parsed.

Lemma run_cons (s : State) (ev : SocketEvent) (evs : list SocketEvent) :
  run JSON_parse s (ev :: evs) =
  (fst (run JSON_parse (fst (handle JSON_parse s ev)) evs),
   snd (handle JSON_parse s ev)
   ++ snd (run JSON_parse (fst (handle JSON_parse s ev)) evs)).
Proof.
  cbn [run]. destruct (handle JSON_parse s ev) as [s1 out1].
  cbn [fst snd]. now destruct (run JSON_parse s1 evs).
Qed.

Lemma messages_keep_flag (msgs : list SocketEvent) :
  forall s : State,
    forallb is_message msgs = true ->
    isConnected (fst (run JSON_parse s msgs)) = isConnected s.
Proof.
  induction msgs as [|ev msgs IH]; intros s Hall; [reflexivity|].
  cbn [forallb] in Hall. apply andb_true_iff in Hall as [Hev Hall].
  rewrite run_cons. cbn [fst]. rewrite IH by exact Hall.
  destruct ev as [|data|]; try discriminate Hev.
  cbn [handle]. unfold onmessage. now destruct (JSON_parse data).
Qed.

(** X1. The connectivity flag says what the socket did last: after any
    run of callbacks that ends with an open or a close followed only by
    messages, the flag is true for the open and false for the close;
    messages, parsed or not, never move it. *)
Theorem flag_follows_last_open_or_close
    (s : State) (pre msgs : list SocketEvent) (ev : SocketEvent) :
  forallb is_message msgs = true ->
  isConnected (fst (run JSON_parse s (pre ++ ev :: msgs))) =
  match ev with
  | OnOpen => true
  | OnClose => false
  | OnMessage _ => isConnected (fst (run JSON_parse s pre))
  end.
Proof.
  intros Hall.
  rewrite StreamFacts.run_app. cbn [fst].
  rewrite run_cons. cbn [fst].
  rewrite messages_keep_flag by exact Hall.
  destruct ev as [|data|]; try reflexivity.
  cbn [handle]. unfold onmessage. now destruct (JSON_parse data).
Qed.

(** X2. The buffer holds exactly as many events as have arrived, up to
    100: it is full from the hundredth arrival on. *)
Theorem buffer_length_exact (evs : list SocketEvent) :
  length (events (fst (run JSON_parse initial evs))) =
  Nat.min 100 (length (arrived JSON_parse evs)).
Proof.
  rewrite StreamFacts.run_events by (cbn; lia).
  cbn [initial events]. rewrite app_nil_r.
  rewrite length_firstn, length_rev. reflexivity.
Qed.

Lemma errors_app (l1 l2 : list Effect) :
  errors (l1 ++ l2) = errors l1 + errors l2.
Proof. unfold errors. now rewrite filter_app, length_app. Qed.

(** X3. Over any run of callbacks the handlers never close the socket,
    and they write one [console.error] for each message that did not
    parse and for nothing else. *)
Theorem handlers_log_each_dropped_message_never_close
    (s : State) (evs : list SocketEvent) :
  ~ In SocketClose (snd (run JSON_parse s evs))
  /\ errors (snd (run JSON_parse s evs)) = dropped JSON_parse evs.
Proof.
  revert s. induction evs as [|ev evs IH]; intros s.
  - split; [intros []|reflexivity].
  - rewrite run_cons. cbn [snd].
    destruct (IH (fst (handle JSON_parse s ev))) as [Hclose Herr].
    rewrite errors_app, Herr. split.
    + intros Hin. apply in_app_or in Hin as [Hin|Hin]; [|now apply Hclose].
      destruct ev as [|data|]; cbn in Hin.
      * destruct Hin as [Hin|[]]. discriminate Hin.
      * unfold onmessage in Hin.
        destruct (JSON_parse data); cbn in Hin; [contradiction|].
        destruct Hin as [Hin|[]]. discriminate Hin.
      * destruct Hin as [Hin|[]]. discriminate Hin.
    + destruct ev as [|data|]; cbn [handle dropped]; try reflexivity.
      unfold onmessage. now destruct (JSON_parse data).
Qed.

Lemma arrived_from_message (evs : list SocketEvent) (e : Received) :
  In e (arrived JSON_parse evs) ->
  exists data, In (OnMessage data) evs /\ JSON_parse data = ParseOk e.
Proof.
  induction evs as [|ev evs IH]; [intros []|].
  intros Hin. destruct ev as [|data|]; cbn [arrived] in Hin.
  - destruct (IH Hin) as (d & Hd & Hp). exists d. split; [now right|exact Hp].
  - destruct (JSON_parse data) as [e'|err] eqn:Hp.
    + destruct Hin as [<-|Hin].
      * exists data. split; [now left|exact Hp].
      * destruct (IH Hin) as (d & Hd & Hp'). exists d. split; [now right|exact Hp'].
    + destruct (IH Hin) as (d & Hd & Hp'). exists d. split; [now right|exact Hp'].
  - destruct (IH Hin) as (d & Hd & Hp). exists d. split; [now right|exact Hp].
Qed.

Lemma firstn_In {A : Type} (n : nat) (l : list A) (x : A) :
  In x (firstn n l) -> In x l.
Proof.
  intros Hin. rewrite <- (firstn_skipn n l). apply in_or_app. now left.
Qed.

(** X4. Whatever is in the buffer came over the socket: each buffered
    entry is the parsed payload of a message of the trace. *)
Theorem buffer_holds_only_parsed_messages (evs : list SocketEvent) (e : Received) :
  In e (events (fst (run JSON_parse initial evs))) ->
  exists data, In (OnMessage data) evs /\ JSON_parse data = ParseOk e.
Proof.
  rewrite StreamFacts.run_events by (cbn; lia).
  cbn [initial events]. rewrite app_nil_r.
  intros Hin. apply firstn_In in Hin. apply in_rev in Hin.
  now apply arrived_from_message.
Qed.




End Hook.

(** X1 on a socket that opened, delivered a message, closed and then
    delivered two more. *)
Lemma flag_follows_last_open_or_close_witness :
  forallb is_message MoreSamples.late_messages = true
  /\ isConnected
       (fst (run Samples.sample_parse initial
               (MoreSamples.closing_trace ++ OnClose :: MoreSamples.late_messages)))
     = false.
Proof.
  split; [reflexivity|].
  exact (flag_follows_last_open_or_close Samples.sample_parse initial
           MoreSamples.closing_trace MoreSamples.late_messages OnClose eq_refl).
Defined.

(** X4 on the newer of two buffered events. *)
Lemma buffer_holds_only_parsed_messages_witness :
  In (IsEvent (Samples.ev "{2" "action_taken"))
     (events (fst (run Samples.sample_parse initial MoreSamples.two_messages)))
  /\ exists data,
      In (OnMessage data) MoreSamples.two_messages
      /\ Samples.sample_parse data
         = ParseOk (IsEvent (Samples.ev "{2" "action_taken")).
Proof.
  assert (Hin : In (IsEvent (Samples.ev "{2" "action_taken"))
                   (events (fst (run Samples.sample_parse initial
                                   MoreSamples.two_messages)))).
  { left. reflexivity. }
  split; [exact Hin|].
  exact (buffer_holds_only_parsed_messages Samples.sample_parse
           MoreSamples.two_messages _ Hin).
Defined.


End StreamMore.

(** ** More about the page *)

Module PageFacts.
Import App Page.

Section Step.

Variable JSON_parse : string -> EventStream.Parsed.

Lemma In_drop_nth {A : Type} (x : A) (l : list A) :
  forall n : nat, In x (drop_nth n l) -> In x l.
Proof.
  induction l as [|y l IH]; intros n Hin; [destruct n; exact Hin|].
  destruct n as [|n]; cbn in Hin.
  - now right.
  - destruct Hin as [->|Hin]; [now left|right; eauto].
Qed.

Lemma ids_call_fetchDetails (inst : nat) (rid : string) (w : World) :
  inst < next_instance w ->
  ids_in_order w -> ids_in_order (call_fetchDetails inst rid w).
Proof.
  intros Hinst [Hp Hm]. split; cbn; [|exact Hm].
  intros p Hin. apply in_app_or in Hin as [Hin|[<-|[]]]; auto.
Qed.

Lemma ids_update (inst : nat) (f : RunDetail.State -> RunDetail.State) (w : World) :
  ids_in_order w ->
  ids_in_order (set_mounted (update_instance inst f (mounted w)) w).
Proof.
  intros [Hp Hm]. split; cbn; [exact Hp|].
  intros m' Hm'. destruct (mounted w) as [m|]; [|discriminate Hm'].
  cbn in Hm'. destruct (Nat.eqb (instance m) inst);
    injection Hm' as <-; cbn; auto.
Qed.

Lemma ids_step (w w' : World) (a : Action) :
  ids_in_order w -> step JSON_parse w a = Some w' -> ids_in_order w'.
Proof.
  intros Hids Hstep. pose proof Hids as [Hp Hm].
  destruct a as [|rid| |confirmed|value| | |n r|ev]; cbn [step] in Hstep.
  - injection Hstep as <-. split; cbn; [exact Hp|discriminate].
  - injection Hstep as <-. unfold handleSelectRun, commit.
    destruct (detail_prop History (Some rid)) as [rid'|].
    + destruct (mounted w) as [m|] eqn:Hmw.
      * destruct (runId m =? rid')%string.
        -- split; cbn; [exact Hp|]. intros m' [= <-]. auto.
        -- apply ids_call_fetchDetails; cbn; [auto|].
           split; cbn; [exact Hp|]. intros m' [= <-]. cbn. auto.
      * apply ids_call_fetchDetails; cbn; [lia|].
        split; cbn.
        -- intros p Hin. specialize (Hp p Hin). lia.
        -- intros m' [= <-]. cbn. lia.
    + split; cbn; [exact Hp|discriminate].
  - destruct (interval w); [|discriminate].
    destruct (mounted w) as [m|] eqn:Hmw; [|discriminate].
    injection Hstep as <-. apply ids_call_fetchDetails; auto.
  - destruct (mounted w) as [m|] eqn:Hmw; [|discriminate].
    destruct (RunDetail.stop_shown _); [|discriminate].
    destruct confirmed; cbn in Hstep; injection Hstep as <-; [|exact Hids].
    split; cbn; [|rewrite Hmw; exact Hm].
    intros p Hin. apply in_app_or in Hin as [Hin|[<-|[]]]; cbn; auto.
  - destruct (mounted w) as [m|] eqn:Hmw; [|discriminate].
    destruct (prompt_shown m); [|discriminate].
    injection Hstep as <-. split; cbn; [exact Hp|].
    intros m' [= <-]. cbn. auto.
  - destruct (mounted w) as [m|] eqn:Hmw; [|discriminate].
    destruct (prompt_shown m); [|discriminate].
    injection Hstep as <-. unfold call_submitInput.
    destruct (RunDetail.submitInput (state m) (runId m)) as [s' [|q reqs]];
      split; cbn; try exact Hp; try (intros m' [= <-]; cbn; auto).
    intros p Hin. apply in_app_or in Hin as [Hin|[<-|[]]]; cbn; auto.
  - destruct (mounted w) as [m|] eqn:Hmw; [|discriminate].
    destruct (send_enabled m); [|discriminate].
    injection Hstep as <-. unfold call_submitInput.
    destruct (RunDetail.submitInput (state m) (runId m)) as [s' [|q reqs]];
      split; cbn; try exact Hp; try (intros m' [= <-]; cbn; auto).
    intros p Hin. apply in_app_or in Hin as [Hin|[<-|[]]]; cbn; auto.
  - destruct (nth_error (pending w) n) as [p|] eqn:Hnth; [|discriminate].
    injection Hstep as <-.
    assert (Hinst : pending_instance p < next_instance w).
    { apply Hp. eapply nth_error_In; eauto. }
    assert (H0 : ids_in_order (set_pending (drop_nth n (pending w)) w)).
    { split; cbn; [|exact Hm]. intros q Hin. apply Hp.
      eapply In_drop_nth; eauto. }
    set (w0 := set_pending _ w) in *.
    assert (Hn0 : next_instance w0 = next_instance w) by reflexivity.
    clearbody w0.
    destruct p as [inst rid|inst rid|inst rid]; cbn in Hinst; unfold settle.
    + destruct (RunDetail.fetchDetails_resume r) as [f out].
      apply (ids_update inst f) in H0. exact H0.
    + destruct (RunDetail.cancelRun_resume r) as [[|] out];
        [apply ids_call_fetchDetails; cbn; [lia|]|]; exact H0.
    + destruct (RunDetail.submitInput_resume r) as [[f [|]] out];
        apply (ids_update inst f) in H0;
        [apply ids_call_fetchDetails; cbn; [lia|]|]; exact H0.
  - destruct (EventStream.handle JSON_parse (live w) ev) as [l effs].
    injection Hstep as <-. exact Hids.
Qed.

Lemma reachable_ids (w : World) :
  reachable JSON_parse w -> ids_in_order w.
Proof.
  induction 1 as [|w w' a _ IH Hstep].
  - split; cbn; [intros p []|discriminate].
  - eapply ids_step; eauto.
Qed.

Lemma views_from_step (k : nat) (w w' : World) (a : Action) :
  views_from k w -> step JSON_parse w a = Some w' -> views_from k w'.
Proof.
  intros [Hk Hm] Hstep.
  assert (Hup : forall inst f m',
             update_instance inst f (mounted w) = Some m' -> k <= instance m').
  { intros inst f m' Hm'. destruct (mounted w) as [m|]; [|discriminate Hm'].
    cbn in Hm'. destruct (Nat.eqb (instance m) inst);
      injection Hm' as <-; cbn; auto. }
  destruct a as [|rid| |confirmed|value| | |n r|ev]; cbn [step] in Hstep.
  - injection Hstep as <-. split; cbn; [exact Hk|discriminate].
  - injection Hstep as <-. unfold handleSelectRun, commit.
    destruct (detail_prop History (Some rid)) as [rid'|].
    + destruct (mounted w) as [m|] eqn:Hmw.
      * destruct (runId m =? rid')%string; split; cbn; try exact Hk;
          intros m' [= <-]; cbn; auto.
      * split; cbn; [lia|]. intros m' [= <-]. cbn. lia.
    + split; cbn; [exact Hk|discriminate].
  - destruct (interval w); [|discriminate].
    destruct (mounted w) as [m|] eqn:Hmw; [|discriminate].
    injection Hstep as <-. split; cbn; [exact Hk|]. now rewrite Hmw.
  - destruct (mounted w) as [m|] eqn:Hmw; [|discriminate].
    destruct (RunDetail.stop_shown _); [|discriminate].
    destruct confirmed; cbn in Hstep; injection Hstep as <-;
      split; cbn; try exact Hk; now rewrite Hmw.
  - destruct (mounted w) as [m|] eqn:Hmw; [|discriminate].
    destruct (prompt_shown m); [|discriminate].
    injection Hstep as <-. split; cbn; [exact Hk|].
    intros m' [= <-]. cbn. auto.
  - destruct (mounted w) as [m|] eqn:Hmw; [|discriminate].
    destruct (prompt_shown m); [|discriminate].
    injection Hstep as <-. unfold call_submitInput.
    destruct (RunDetail.submitInput (state m) (runId m)) as [s' [|q reqs]];
      split; cbn; try exact Hk; intros m' [= <-]; cbn; auto.
  - destruct (mounted w) as [m|] eqn:Hmw; [|discriminate].
    destruct (send_enabled m); [|discriminate].
    injection Hstep as <-. unfold call_submitInput.
    destruct (RunDetail.submitInput (state m) (runId m)) as [s' [|q reqs]];
      split; cbn; try exact Hk; intros m' [= <-]; cbn; auto.
  - destruct (nth_error (pending w) n) as [p|]; [|discriminate].
    injection Hstep as <-.
    destruct p as [inst rid|inst rid|inst rid]; unfold settle.
    + destruct (RunDetail.fetchDetails_resume r) as [f out].
      split; cbn; [exact Hk|]. apply Hup.
    + destruct (RunDetail.cancelRun_resume r) as [[|] out];
        split; cbn; auto.
    + destruct (RunDetail.submitInput_resume r) as [[f [|]] out];
        split; cbn; try exact Hk; apply Hup.
  - destruct (EventStream.handle JSON_parse (live w) ev) as [l effs].
    injection Hstep as <-. split; cbn; auto.
Qed.

Lemma views_from_steps (k : nat) (acts : list Action) :
  forall w w' : World,
    views_from k w -> steps JSON_parse w acts = Some w' -> views_from k w'.
Proof.
  induction acts as [|a acts IH]; intros w w' Hv Hsteps; cbn [steps] in Hsteps.
  - now injection Hsteps as <-.
  - destruct (step JSON_parse w a) as [w1|] eqn:Hstep; [|discriminate].
    eapply IH; [|exact Hsteps].
    eapply views_from_step; eauto.
Qed.

(** When a call settles that does not belong to the view on the page,
    the view stays as it is. *)
Lemma settle_other_instance (w w' : World) (n : nat) (p : Pending) (r : Fetched) :
  nth_error (pending w) n = Some p ->
  (forall m, mounted w = Some m -> instance m <> pending_instance p) ->
  step JSON_parse w (Settle n r) = Some w' ->
  mounted w' = mounted w.
Proof.
  intros Hnth Hother Hstep. cbn [step] in Hstep. rewrite Hnth in Hstep.
  injection Hstep as <-.
  assert (Hup : forall f,
             update_instance (pending_instance p) f (mounted w) = mounted w).
  { intros f. destruct (mounted w) as [m|]; [|reflexivity]. cbn.
    destruct (Nat.eqb_spec (instance m) (pending_instance p)) as [He|_];
      [|reflexivity].
    now contradiction (Hother m eq_refl). }
  destruct p as [inst rid|inst rid|inst rid]; unfold settle; cbn in Hup.
  - destruct (RunDetail.fetchDetails_resume r) as [f out]. cbn. apply Hup.
  - now destruct (RunDetail.cancelRun_resume r) as [[|] out].
  - destruct (RunDetail.submitInput_resume r) as [[f [|]] out]; cbn; apply Hup.
Qed.

(** X6. A run view is never changed by a call of a view that was there
    before it.  Take any moment at which no run view is on the page: the
    calls of the views before it carry instance numbers below the next
    one.  Whatever happens afterwards, and whenever such a call settles,
    with whatever result, the view then on the page stays as it is. *)
Theorem new_view_ignores_older_calls
    (w0 w w' : World) (acts : list Action) (n : nat) (p : Pending) (r : Fetched) :
  mounted w0 = None ->
  steps JSON_parse w0 acts = Some w ->
  nth_error (pending w) n = Some p ->
  pending_instance p < next_instance w0 ->
  step JSON_parse w (Settle n r) = Some w' ->
  mounted w' = mounted w.
Proof.
  intros Hnone Hsteps Hnth Hold Hsettle.
  assert (Hv : views_from (next_instance w0) w).
  { apply (views_from_steps _ acts w0); [|exact Hsteps].
    split; [lia|]. intros m Hm. rewrite Hnone in Hm. discriminate Hm. }
  eapply settle_other_instance; eauto.
  intros m Hm. destruct Hv as [_ Hv]. specialize (Hv m Hm). lia.
Qed.

(** Every call that is suspended at a moment carries an instance number
    below the next one, so the theorem above covers all of them. *)
Lemma pending_calls_are_older (w0 : World) (p : Pending) :
  reachable JSON_parse w0 ->
  In p (pending w0) ->
  pending_instance p < next_instance w0.
Proof. intros Hreach. apply (reachable_ids w0 Hreach). Qed.

Lemma commit_matches (mode : ViewMode) (active : option string) (w : World) :
  view_matches_selection (commit mode active w).
Proof.
  unfold view_matches_selection, commit.
  destruct (detail_prop mode active) as [rid|] eqn:Hprop.
  - destruct (mounted w) as [m|].
    + destruct (String.eqb_spec (runId m) rid) as [<-|Hne]; cbn; now rewrite Hprop.
    + cbn. now rewrite Hprop.
  - cbn. now rewrite Hprop.
Qed.

(** A step other than a click on the live card or on a row keeps the
    mode, the selection and the run the view was given. *)
Lemma step_keeps_selection (w w' : World) (a : Action) :
  step JSON_parse w a = Some w' ->
  a <> ClickLiveFeed -> (forall rid, a <> SelectRun rid) ->
  viewMode w' = viewMode w
  /\ activeRunId w' = activeRunId w
  /\ option_map runId (mounted w') = option_map runId (mounted w).
Proof.
  intros Hstep Hlive Hsel.
  assert (Hup : forall inst f,
             option_map runId (update_instance inst f (mounted w))
             = option_map runId (mounted w)).
  { intros inst f. destruct (mounted w) as [m|]; [|reflexivity].
    cbn. now destruct (Nat.eqb (instance m) inst). }
  destruct a as [|rid| |confirmed|value| | |n r|ev]; cbn [step] in Hstep.
  - contradiction.
  - now contradiction (Hsel rid).
  - destruct (interval w); [|discriminate].
    destruct (mounted w) as [m|] eqn:Hm; [|discriminate].
    injection Hstep as <-. cbn. rewrite Hm. auto.
  - destruct (mounted w) as [m|] eqn:Hm; [|discriminate].
    destruct (RunDetail.stop_shown _); [|discriminate].
    destruct confirmed; cbn in Hstep; injection Hstep as <-; cbn;
      rewrite Hm; auto.
  - destruct (mounted w) as [m|] eqn:Hm; [|discriminate].
    destruct (prompt_shown m); [|discriminate].
    injection Hstep as <-. cbn. auto.
  - destruct (mounted w) as [m|] eqn:Hm; [|discriminate].
    destruct (prompt_shown m); [|discriminate]. injection Hstep as <-.
    unfold call_submitInput.
    destruct (RunDetail.submitInput (state m) (runId m)) as [s' [|q reqs]];
      cbn; auto.
  - destruct (mounted w) as [m|] eqn:Hm; [|discriminate].
    destruct (send_enabled m); [|discriminate]. injection Hstep as <-.
    unfold call_submitInput.
    destruct (RunDetail.submitInput (state m) (runId m)) as [s' [|q reqs]];
      cbn; auto.
  - destruct (nth_error (pending w) n) as [p|]; [|discriminate].
    injection Hstep as <-.
    destruct p as [inst rid|inst rid|inst rid]; unfold settle.
    + destruct (RunDetail.fetchDetails_resume r) as [f out]. cbn. auto.
    + destruct (RunDetail.cancelRun_resume r) as [[|] out]; cbn; auto.
    + destruct (RunDetail.submitInput_resume r) as [[f [|]] out]; cbn; auto.
  - destruct (EventStream.handle JSON_parse (live w) ev) as [l effs].
    injection Hstep as <-. cbn. auto.
Qed.

Lemma reachable_matches (w : World) :
  reachable JSON_parse w -> view_matches_selection w.
Proof.
  induction 1 as [|w w' a _ IH Hstep]; [reflexivity|].
  destruct a as [|rid| |confirmed|value| | |n r|ev];
    try (destruct (step_keeps_selection _ _ _ Hstep) as (Hv & Ha & Hm);
         [discriminate|discriminate|];
         unfold view_matches_selection; now rewrite Hv, Ha, Hm).
  - cbn [step] in Hstep. injection Hstep as <-. apply commit_matches.
  - cbn [step] in Hstep. injection Hstep as <-. apply commit_matches.
Qed.

(** X7. On every page that can be reached the run view is on the page
    exactly when the mode is history and the selected run id is not empty;
    it then has that id as its [runId], and the timer exists exactly then
    and polls that id. *)
Theorem view_and_timer_match_selection (w : World) :
  reachable JSON_parse w ->
  option_map runId (mounted w) = detail_prop (viewMode w) (activeRunId w)
  /\ interval w = detail_prop (viewMode w) (activeRunId w)
  /\ (mounted w <> None <->
      viewMode w = History
      /\ exists rid, activeRunId w = Some rid /\ rid <> "").
Proof.
  intros Hreach.
  pose proof (reachable_matches w Hreach) as Hmatch.
  destruct (AppFacts.reachable_invariant JSON_parse w Hreach) as (Hint & _ & _).
  unfold view_matches_selection in Hmatch.
  split; [exact Hmatch|]. split; [now rewrite Hint|].
  unfold detail_prop, truthy in Hmatch. split.
  - intros Hm. destruct (mounted w) as [m|]; [|contradiction].
    destruct (viewMode w); [discriminate|].
    destruct (activeRunId w) as [rid|]; [|discriminate].
    split; [reflexivity|]. exists rid. split; [reflexivity|].
    intros ->. discriminate Hmatch.
  - intros (Hv & rid & Ha & Hne). rewrite Hv, Ha in Hmatch.
    destruct (String.eqb_spec rid "") as [He|_]; [contradiction|].
    destruct (mounted w); [discriminate|discriminate Hmatch].
Qed.

(** X8. Selecting the run that is already selected in history mode does
    nothing at all: no fetch, no new timer, the page is the same. *)
Theorem reselect_is_noop (w : World) (rid : string) :
  reachable JSON_parse w ->
  viewMode w = History ->
  activeRunId w = Some rid ->
  step JSON_parse w (SelectRun rid) = Some w.
Proof.
  intros Hreach Hv Ha.
  pose proof (reachable_matches w Hreach) as Hmatch.
  destruct (AppFacts.reachable_invariant JSON_parse w Hreach) as (Hint & _ & _).
  unfold view_matches_selection in Hmatch. rewrite Hv, Ha in Hmatch.
  cbn [step]. unfold handleSelectRun, commit.
  destruct (detail_prop History (Some rid)) as [rid'|].
  - destruct (mounted w) as [m|] eqn:Hm; [|discriminate Hmatch].
    injection Hmatch as Hrid. rewrite Hrid, String.eqb_refl.
    destruct w; cbn in *. now subst.
  - destruct (mounted w) as [m|] eqn:Hm; [discriminate Hmatch|].
    cbn in Hint. destruct w; cbn in *. now subst.
Qed.

(** X9. In live mode there is no run view and no timer: a tick cannot
    happen and there is no Stop button to click. *)
Theorem live_mode_has_no_poller (w : World) :
  reachable JSON_parse w ->
  viewMode w = Live ->
  mounted w = None
  /\ interval w = None
  /\ step JSON_parse w IntervalTick = None
  /\ (forall confirmed, step JSON_parse w (ClickStop confirmed) = None).
Proof.
  intros Hreach Hv.
  pose proof (reachable_matches w Hreach) as Hmatch.
  destruct (AppFacts.reachable_invariant JSON_parse w Hreach) as (Hint & _ & _).
  unfold view_matches_selection in Hmatch. rewrite Hv in Hmatch. cbn in Hmatch.
  destruct (mounted w) as [m|] eqn:Hm; [discriminate Hmatch|].
  cbn in Hint. cbn [step]. rewrite Hint, Hm. auto.
Qed.

Lemma step_live (w w' : World) (a : Action) :
  step JSON_parse w a = Some w' ->
  live w' =
  match a with
  | Socket ev => fst (EventStream.handle JSON_parse (live w) ev)
  | _ => live w
  end.
Proof.
  intros Hstep.
  destruct a as [|rid| |confirmed|value| | |n r|ev]; cbn [step] in Hstep.
  - injection Hstep as <-. reflexivity.
  - injection Hstep as <-. unfold handleSelectRun, commit.
    destruct (detail_prop History (Some rid)) as [rid'|]; [|reflexivity].
    destruct (mounted w) as [m|]; [|reflexivity].
    destruct (runId m =? rid')%string; reflexivity.
  - destruct (interval w); [|discriminate].
    destruct (mounted w); [|discriminate]. injection Hstep as <-; reflexivity.
  - destruct (mounted w) as [m|]; [|discriminate].
    destruct (RunDetail.stop_shown _); [|discriminate].
    destruct confirmed; cbn in Hstep; injection Hstep as <-; reflexivity.
  - destruct (mounted w) as [m|]; [|discriminate].
    destruct (prompt_shown m); [|discriminate]. injection Hstep as <-; reflexivity.
  - destruct (mounted w) as [m|]; [|discriminate].
    destruct (prompt_shown m); [|discriminate]. injection Hstep as <-.
    unfold call_submitInput.
    destruct (RunDetail.submitInput (state m) (runId m)) as [s' [|q reqs]]; reflexivity.
  - destruct (mounted w) as [m|]; [|discriminate].
    destruct (send_enabled m); [|discriminate]. injection Hstep as <-.
    unfold call_submitInput.
    destruct (RunDetail.submitInput (state m) (runId m)) as [s' [|q reqs]]; reflexivity.
  - destruct (nth_error (pending w) n) as [p|]; [|discriminate].
    injection Hstep as <-.
    destruct p as [inst rid|inst rid|inst rid]; unfold settle.
    + destruct (RunDetail.fetchDetails_resume r) as [f out]; reflexivity.
    + destruct (RunDetail.cancelRun_resume r) as [[|] out]; reflexivity.
    + destruct (RunDetail.submitInput_resume r) as [[f [|]] out]; reflexivity.
  - destruct (EventStream.handle JSON_parse (live w) ev) as [l effs].
    injection Hstep as <-; reflexivity.
Qed.

(** X10. The live buffer of the page is that of the stream hook run on
    the socket callbacks alone: selecting runs, polling, cancelling and the
    answers of the backend neither read nor change it, so on the way back to
    live mode the feed holds what arrived in the meantime. *)
Theorem live_buffer_sees_only_the_socket (acts : list Action) :
  forall w w' : World,
    steps JSON_parse w acts = Some w' ->
    live w' = fst (EventStream.run JSON_parse (live w) (socket_events acts)).
Proof.
  induction acts as [|a acts IH]; intros w w' Hsteps; cbn [steps] in Hsteps.
  - now injection Hsteps as <-.
  - destruct (step JSON_parse w a) as [w1|] eqn:Hstep; [|discriminate].
    rewrite (IH _ _ Hsteps), (step_live _ _ _ Hstep).
    destruct a; try reflexivity.
    cbn [socket_events]. now rewrite StreamMore.run_cons.
Qed.

(** X11. A confirmed click on Stop sends one cancel command, for the run
    that is selected at that moment, and changes nothing that is shown; a
    click that is not confirmed changes nothing at all. *)
Theorem cancel_targets_selected_run (w w' : World) :
  reachable JSON_parse w ->
  step JSON_parse w (ClickStop true) = Some w' ->
  exists m,
    mounted w = Some m
    /\ activeRunId w = Some (runId m)
    /\ outbox w' = PostCancel (runId m) :: outbox w
    /\ pending w' = pending w ++ [AwaitCancel (instance m) (runId m)]
    /\ mounted w' = mounted w
    /\ step JSON_parse w (ClickStop false) = Some w.
Proof.
  intros Hreach Hstep.
  destruct (AppFacts.reachable_invariant JSON_parse w Hreach) as (_ & Hsel & _).
  cbn [step] in *.
  destruct (mounted w) as [m|] eqn:Hm; [|discriminate].
  destruct (Hsel m eq_refl) as (_ & Ha & _).
  destruct (RunDetail.stop_shown _); [|discriminate].
  cbn in Hstep. injection Hstep as <-.
  exists m. cbn. rewrite Hm. auto 7.
Qed.

(** X12. When the cancel command settles, the displayed state is not
    touched.  If the fetch was rejected the error is logged and nothing
    more is sent; any response, an error status too, is followed by one
    fetch of the run the command was for. *)
Theorem cancel_settles_with_refetch
    (w : World) (n inst : nat) (rid : string) (r : Fetched) :
  nth_error (pending w) n = Some (AwaitCancel inst rid) ->
  exists w',
    step JSON_parse w (Settle n r) = Some w'
    /\ mounted w' = mounted w
    /\ match r with
       | Rejected err =>
           outbox w' = outbox w
           /\ pending w' = drop_nth n (pending w)
           /\ console w' = ConsoleError [err] :: console w
       | Response _ _ =>
           outbox w' = GetRun rid :: outbox w
           /\ pending w' = drop_nth n (pending w) ++ [AwaitGet inst rid]
           /\ console w' = console w
       end.
Proof.
  intros Hnth. cbn [step]. rewrite Hnth. unfold settle.
  destruct r as [err|ok body]; cbn; eexists; repeat split.
Qed.

End Step.

(** X6: run A was opened and left; run B is opened and its snapshot is
    shown; then the answer for A arrives. *)
Lemma new_view_ignores_older_calls_witness :
  reachable Samples.sample_parse
    (Scenarios.page_after MoreSamples.opened_then_left)
  /\ mounted (Scenarios.page_after MoreSamples.opened_then_left) = None
  /\ steps Samples.sample_parse
          (Scenarios.page_after MoreSamples.opened_then_left)
          MoreSamples.reopened_and_shown
     = Some (Scenarios.page_after
               (MoreSamples.opened_then_left ++ MoreSamples.reopened_and_shown))
  /\ nth_error
       (pending (Scenarios.page_after
                   (MoreSamples.opened_then_left ++ MoreSamples.reopened_and_shown)))
       0
     = Some (AwaitGet 0 "run-a")
  /\ mounted
       (Scenarios.page_after
          (MoreSamples.opened_then_left ++ MoreSamples.reopened_and_shown
           ++ [Settle 0 Scenarios.late_answer_a]))
     = mounted
         (Scenarios.page_after
            (MoreSamples.opened_then_left ++ MoreSamples.reopened_and_shown)).
Proof.
  assert (Hr : reachable Samples.sample_parse
                 (Scenarios.page_after MoreSamples.opened_then_left)).
  { apply (AppFacts.steps_reachable Samples.sample_parse
             MoreSamples.opened_then_left init);
      [apply reachable_init|reflexivity]. }
  split; [exact Hr|]. split; [reflexivity|]. split; [reflexivity|].
  split; [reflexivity|].
  assert (Hold : pending_instance (AwaitGet 0 "run-a")
                 < next_instance (Scenarios.page_after MoreSamples.opened_then_left)).
  { cbn. lia. }
  exact (new_view_ignores_older_calls Samples.sample_parse
           (Scenarios.page_after MoreSamples.opened_then_left)
           (Scenarios.page_after
              (MoreSamples.opened_then_left ++ MoreSamples.reopened_and_shown))
           (Scenarios.page_after
              (MoreSamples.opened_then_left ++ MoreSamples.reopened_and_shown
               ++ [Settle 0 Scenarios.late_answer_a]))
           MoreSamples.reopened_and_shown 0 (AwaitGet 0 "run-a")
           Scenarios.late_answer_a
           eq_refl eq_refl eq_refl Hold eq_refl).
Defined.

(** X7 on the page that shows run A. *)
Lemma view_and_timer_match_selection_witness :
  reachable Samples.sample_parse (Scenarios.page_after Scenarios.just_opened)
  /\ interval (Scenarios.page_after Scenarios.just_opened)
     = detail_prop (viewMode (Scenarios.page_after Scenarios.just_opened))
         (activeRunId (Scenarios.page_after Scenarios.just_opened)).
Proof.
  assert (Hr : reachable Samples.sample_parse
                 (Scenarios.page_after Scenarios.just_opened)).
  { apply (AppFacts.steps_reachable Samples.sample_parse
             Scenarios.just_opened init);
      [apply reachable_init|reflexivity]. }
  split; [exact Hr|].
  exact (proj1 (proj2 (view_and_timer_match_selection
                         Samples.sample_parse _ Hr))).
Defined.

(** X8 on the page that shows run A. *)
Lemma reselect_is_noop_witness :
  reachable Samples.sample_parse (Scenarios.page_after Scenarios.just_opened)
  /\ viewMode (Scenarios.page_after Scenarios.just_opened) = History
  /\ activeRunId (Scenarios.page_after Scenarios.just_opened) = Some "run-a"
  /\ step Samples.sample_parse (Scenarios.page_after Scenarios.just_opened)
          (SelectRun "run-a")
     = Some (Scenarios.page_after Scenarios.just_opened).
Proof.
  assert (Hr : reachable Samples.sample_parse
                 (Scenarios.page_after Scenarios.just_opened)).
  { apply (AppFacts.steps_reachable Samples.sample_parse
             Scenarios.just_opened init);
      [apply reachable_init|reflexivity]. }
  split; [exact Hr|]. split; [reflexivity|]. split; [reflexivity|].
  exact (reselect_is_noop Samples.sample_parse _ "run-a" Hr eq_refl eq_refl).
Defined.

(** X9 on the page after run A was opened and left. *)
Lemma live_mode_has_no_poller_witness :
  reachable Samples.sample_parse
    (Scenarios.page_after MoreSamples.opened_then_left)
  /\ viewMode (Scenarios.page_after MoreSamples.opened_then_left) = Live
  /\ step Samples.sample_parse
          (Scenarios.page_after MoreSamples.opened_then_left) IntervalTick
     = None.
Proof.
  assert (Hr : reachable Samples.sample_parse
                 (Scenarios.page_after MoreSamples.opened_then_left)).
  { apply (AppFacts.steps_reachable Samples.sample_parse
             MoreSamples.opened_then_left init);
      [apply reachable_init|reflexivity]. }
  split; [exact Hr|]. split; [reflexivity|].
  exact (proj1 (proj2 (proj2 (live_mode_has_no_poller
                                Samples.sample_parse _ Hr eq_refl)))).
Defined.

(** X10 on messages that arrive before, during and after a look at run
    A. *)
Lemma live_buffer_sees_only_the_socket_witness :
  steps Samples.sample_parse init MoreSamples.feed_and_history
  = Some (Scenarios.page_after MoreSamples.feed_and_history)
  /\ live (Scenarios.page_after MoreSamples.feed_and_history)
     = fst (EventStream.run Samples.sample_parse (live init)
              (socket_events MoreSamples.feed_and_history)).
Proof.
  split; [reflexivity|].
  exact (live_buffer_sees_only_the_socket Samples.sample_parse
           MoreSamples.feed_and_history init _ eq_refl).
Defined.

(** X11 on the page that shows run A, not yet fetched. *)
Lemma cancel_targets_selected_run_witness :
  reachable Samples.sample_parse (Scenarios.page_after Scenarios.just_opened)
  /\ step Samples.sample_parse (Scenarios.page_after Scenarios.just_opened)
          (ClickStop true)
     = Some (Scenarios.page_after MoreSamples.cancel_sent)
  /\ exists m,
      mounted (Scenarios.page_after Scenarios.just_opened) = Some m
      /\ activeRunId (Scenarios.page_after Scenarios.just_opened)
         = Some (runId m)
      /\ outbox (Scenarios.page_after MoreSamples.cancel_sent)
         = PostCancel (runId m)
             :: outbox (Scenarios.page_after Scenarios.just_opened).
Proof.
  assert (Hr : reachable Samples.sample_parse
                 (Scenarios.page_after Scenarios.just_opened)).
  { apply (AppFacts.steps_reachable Samples.sample_parse
             Scenarios.just_opened init);
      [apply reachable_init|reflexivity]. }
  split; [exact Hr|]. split; [reflexivity|].
  destruct (cancel_targets_selected_run Samples.sample_parse
              (Scenarios.page_after Scenarios.just_opened)
              (Scenarios.page_after MoreSamples.cancel_sent) Hr eq_refl)
    as (m & Hm & Ha & Hout & _).
  exists m. auto.
Defined.

(** X12 on the cancel command of run A, answered with an error status. *)
Lemma cancel_settles_with_refetch_witness :
  nth_error (pending (Scenarios.page_after MoreSamples.cancel_sent)) 1
  = Some (AwaitCancel 0 "run-a")
  /\ exists w',
      step Samples.sample_parse (Scenarios.page_after MoreSamples.cancel_sent)
           (Settle 1 Samples.http_error) = Some w'
      /\ mounted w' = mounted (Scenarios.page_after MoreSamples.cancel_sent)
      /\ outbox w'
         = GetRun "run-a" :: outbox (Scenarios.page_after MoreSamples.cancel_sent).
Proof.
  split; [reflexivity|].
  destruct (cancel_settles_with_refetch Samples.sample_parse
              (Scenarios.page_after MoreSamples.cancel_sent)
              1 0 "run-a" Samples.http_error eq_refl)
    as (w' & Hstep & Hm & Hout & _).
  exists w'. auto.
Defined.

End PageFacts.

(** ** String operations *)

Module StringFacts.

Lemma prefix_skip (pat s : string) :
  prefix pat s = true -> s = (pat ++ skip (String.length pat) s)%string.
Proof.
  revert s. induction pat as [|c pat IH]; intros s Hpre; [reflexivity|].
  destruct s as [|c' s]; [discriminate Hpre|].
  cbn in Hpre. destruct (Ascii.ascii_dec c c') as [<-|]; [|discriminate Hpre].
  cbn. f_equal. now apply IH.
Qed.

(** [split_head] cuts at the first separator: the string is the result
    followed by nothing or by a rest that starts with the separator, and
    the result holds no separator. *)
Lemma split_head_cuts_at_first_separator (sep : ascii) (s : string) :
  (exists rest,
      s = (split_head sep s ++ rest)%string
      /\ (rest = EmptyString \/ exists r, rest = String sep r))
  /\ ~ In sep (list_ascii_of_string (split_head sep s)).
Proof.
  induction s as [|c s [(rest & Hs & Hrest) Hno]].
  - split; [exists EmptyString; auto|intros []].
  - cbn [split_head]. destruct (Ascii.eqb_spec c sep) as [->|Hne].
    + split; [|intros []]. exists (String sep s). split; [reflexivity|eauto].
    + split.
      * exists rest. split; [cbn; now rewrite <- Hs|exact Hrest].
      * cbn. intros [He|Hin]; [now apply Hne|now apply Hno].
Qed.

(** [replace_first] replaces the leftmost occurrence and nothing else:
    either the pattern does not occur and the string is returned as it is,
    or the string is [pre ++ pat ++ post] with no occurrence starting
    inside [pre], and the result is [pre ++ rep ++ post]. *)
Lemma replace_first_leftmost (pat rep s : string) :
  (includes pat s = false /\ replace_first pat rep s = s)
  \/ exists pre post,
      s = (pre ++ pat ++ post)%string
      /\ replace_first pat rep s = (pre ++ rep ++ post)%string
      /\ forall k, k < String.length pre -> prefix pat (skip k s) = false.
Proof.
  induction s as [|c s IH].
  - cbn [includes replace_first].
    destruct (prefix pat EmptyString) eqn:Hpre.
    + right. exists EmptyString, (skip (String.length pat) EmptyString).
      split; [now apply prefix_skip|]. split; [reflexivity|].
      intros k Hk. cbn in Hk. lia.
    + left. auto.
  - cbn [includes replace_first].
    destruct (prefix pat (String c s)) eqn:Hpre.
    + right. exists EmptyString, (skip (String.length pat) (String c s)).
      split; [now apply prefix_skip|]. split; [reflexivity|].
      intros k Hk. cbn in Hk. lia.
    + destruct IH as [[Hinc Heq]|(pre & post & Hs & Heq & Hfirst)].
      * left. split; [exact Hinc|now rewrite Heq].
      * right. exists (String c pre), post.
        split; [cbn; now rewrite <- Hs|]. split; [cbn; now rewrite Heq|].
        intros [|k] Hk; [exact Hpre|].
        cbn [skip]. apply Hfirst. cbn in Hk. lia.
Qed.

End StringFacts.

(** ** The list of runs (components/RunList.tsx) *)

Module RunListFacts.
Import RunList.

(** X14. The id a row shows is the run id up to its first dash: the run
    id is that text followed by nothing or by a rest that starts with a
    dash, and the text holds no dash; the row writes three dots after
    it. *)
Theorem short_id_stops_at_first_dash (run : RunSummary) :
  (exists rest,
      run_id run = (short_id (run_id run) ++ rest)%string
      /\ (rest = EmptyString \/ exists r, rest = String "-"%char r))
  /\ ~ In "-"%char (list_ascii_of_string (short_id (run_id run)))
  /\ row_id_text (row run) = (short_id (run_id run) ++ "...")%string.
Proof.
  destruct (StringFacts.split_head_cuts_at_first_separator "-"%char (run_id run))
    as [Hcut Hno].
  split; [exact Hcut|]. split; [exact Hno|reflexivity].
Qed.

(** X15. The text of a badge is the status without its leftmost [run_]:
    a status that starts with [run_] loses it; a status in which [run_]
    does not occur is shown as it is; otherwise the status is
    [pre ++ "run_" ++ post], with no [run_] starting inside [pre], and the
    text is [pre ++ post]. *)
Theorem label_drops_leftmost_run (rest status : string) :
  label ("run_" ++ rest) = rest
  /\ ((includes "run_" status = false /\ label status = status)
      \/ exists pre post,
          status = (pre ++ "run_" ++ post)%string
          /\ label status = (pre ++ post)%string
          /\ forall k, k < String.length pre ->
                       prefix "run_" (skip k status) = false).
Proof.
  split; [unfold label; destruct rest; reflexivity|].
  unfold label.
  destruct (StringFacts.replace_first_leftmost "run_" "" status)
    as [Hsame|(pre & post & Hs & Heq & Hfirst)]; [now left|].
  right. exists pre, post. auto.
Qed.


(** X17. The spinner never spins with nothing in flight: on every state
    the list can reach, if no [fetchRuns] is in flight then [loading] is
    off. *)
Theorem spinner_off_when_idle (w : World) :
  reachable w -> in_flight w = 0 -> loading (state w) = false.
Proof.
  intros Hreach. induction Hreach as [|w w' a _ IH Hstep]; [discriminate|].
  intros Hidle. destruct a as [|r]; cbn [step] in Hstep.
  - destruct (render (state w)); [|discriminate].
    injection Hstep as <-. discriminate Hidle.
  - destruct (in_flight w); [discriminate|].
    injection Hstep as <-. cbn. now destruct r as [e|ok [d|e]].
Qed.

(** X17 on the list whose first fetch was rejected. *)
Lemma spinner_off_when_idle_witness :
  reachable MoreSamples.list_after_failure
  /\ in_flight MoreSamples.list_after_failure = 0
  /\ loading (state MoreSamples.list_after_failure) = false.
Proof.
  assert (Hr : reachable MoreSamples.list_after_failure).
  { apply (reachable_step init _ (Settle (Fails "TypeError: Failed to fetch")));
      [apply reachable_init|reflexivity]. }
  split; [exact Hr|]. split; [reflexivity|].
  exact (spinner_off_when_idle _ Hr eq_refl).
Defined.

End RunListFacts.

(** ** The list of agents (components/AgentList.tsx) *)

Module AgentListFacts.
Import AgentList.

Lemma runs_in_flight_app (l1 l2 : list Pending) :
  runs_in_flight (l1 ++ l2) = runs_in_flight l1 + runs_in_flight l2.
Proof. unfold runs_in_flight. now rewrite filter_app, length_app. Qed.

Lemma alerts_app (l1 l2 : list Effect) :
  alerts (l1 ++ l2) = alerts l1 + alerts l2.
Proof. unfold alerts. now rewrite filter_app, length_app. Qed.

Lemma runs_in_flight_drop (l : list Pending) :
  forall (n : nat) (p : Pending),
    nth_error l n = Some p ->
    runs_in_flight l =
    runs_in_flight (App.drop_nth n l)
    + match p with AwaitRun _ => 1 | AwaitAgents => 0 end.
Proof.
  induction l as [|q l IH]; intros n p Hnth; [destruct n; discriminate Hnth|].
  destruct n as [|n]; cbn in Hnth.
  - injection Hnth as ->. unfold runs_in_flight. cbn.
    destruct p; cbn; lia.
  - specialize (IH n p Hnth). unfold runs_in_flight in *. cbn.
    destruct q; cbn; lia.
Qed.

Lemma resume_alerts_once (r : Settled unit) :
  alerts (rev (snd (runAgent_resume r))) = 1
  /\ forall s, loading (fst (runAgent_resume r) s) = false.
Proof. destruct r as [e|[|] body]; split; reflexivity. Qed.

(** X18. At most one run trigger is in flight, and the Run buttons are
    disabled exactly while it is: on every state the list can reach, the
    number of triggers in flight is 1 when [loading] is on and 0 when it
    is off. *)
Theorem one_trigger_at_a_time (w : World) :
  reachable w ->
  runs_in_flight (pending w) = if loading (state w) then 1 else 0.
Proof.
  induction 1 as [|w w' a _ IH Hstep]; [reflexivity|].
  destruct a as [agent|n r|n r]; cbn [step] in Hstep.
  - unfold run_enabled in Hstep.
    destruct (agents (state w)) as [l|]; [|discriminate].
    destruct (existsb _ l); [|discriminate].
    destruct (loading (state w)); [discriminate|].
    cbn in Hstep. injection Hstep as <-.
    cbn [pending state shown sent loading setLoading].
    rewrite runs_in_flight_app, IH. reflexivity.
  - destruct (nth_error (pending w) n) as [[|agent]|] eqn:Hnth;
      try discriminate.
    destruct (fetchAgents_resume r) as [f out] eqn:Hr.
    injection Hstep as <-.
    cbn [pending state shown sent loading setLoading].
    rewrite (runs_in_flight_drop _ _ _ Hnth) in IH. rewrite Nat.add_0_r in IH.
    rewrite IH. now destruct r as [e|ok [d|e]]; injection Hr as <- _.
  - destruct (nth_error (pending w) n) as [[|agent]|] eqn:Hnth;
      try discriminate.
    destruct (runAgent_resume r) as [f out] eqn:Hr.
    injection Hstep as <-.
    cbn [pending state shown sent loading setLoading].
    rewrite (runs_in_flight_drop _ _ _ Hnth) in IH.
    destruct (resume_alerts_once r) as [_ Hload].
    rewrite Hr in Hload. cbn [fst] in Hload. rewrite Hload.
    destruct (loading (state w)); lia.
Qed.

(** X19. No run trigger ends in silence: on every state the list can
    reach, each trigger that was sent is either still in flight or has
    raised exactly one alert, whether the backend accepted it, refused it
    or could not be reached. *)
Theorem every_trigger_alerts_once (w : World) :
  reachable w ->
  alerts (shown w) + runs_in_flight (pending w) = runs_sent (sent w).
Proof.
  induction 1 as [|w w' a _ IH Hstep]; [reflexivity|].
  destruct a as [agent|n r|n r]; cbn [step] in Hstep.
  - destruct (run_enabled (state w) agent); [|discriminate].
    cbn in Hstep. injection Hstep as <-.
    cbn [pending state shown sent loading setLoading].
    rewrite runs_in_flight_app. unfold runs_sent in *. cbn. lia.
  - destruct (nth_error (pending w) n) as [[|agent]|] eqn:Hnth;
      try discriminate.
    destruct (fetchAgents_resume r) as [f out] eqn:Hr.
    injection Hstep as <-.
    cbn [pending state shown sent loading setLoading].
    rewrite (runs_in_flight_drop _ _ _ Hnth) in IH.
    rewrite alerts_app.
    assert (Hout : alerts (rev out) = 0).
    { now destruct r as [e|ok [d|e]]; injection Hr as _ <-. }
    lia.
  - destruct (nth_error (pending w) n) as [[|agent]|] eqn:Hnth;
      try discriminate.
    destruct (runAgent_resume r) as [f out] eqn:Hr.
    injection Hstep as <-.
    cbn [pending state shown sent loading setLoading].
    rewrite (runs_in_flight_drop _ _ _ Hnth) in IH.
    rewrite alerts_app.
    destruct (resume_alerts_once r) as [Hone _].
    rewrite Hr in Hone. cbn [snd] in Hone. lia.
Qed.

Lemma agent_steps_reachable (acts : list Action) :
  forall w w' : World,
    reachable w -> steps w acts = Some w' -> reachable w'.
Proof.
  induction acts as [|a acts IH]; intros w w' Hw Hsteps; cbn [steps] in Hsteps.
  - now injection Hsteps as <-.
  - destruct (step w a) as [w1|] eqn:Hstep; [|discriminate].
    eapply IH; [|exact Hsteps].
    eapply reachable_step; eauto.
Qed.

(** X18 on the list after a trigger was refused. *)
Lemma one_trigger_at_a_time_witness :
  reachable (MoreSamples.agents_after MoreSamples.trigger_refused)
  /\ runs_in_flight (pending (MoreSamples.agents_after MoreSamples.trigger_refused))
     = if loading (state (MoreSamples.agents_after MoreSamples.trigger_refused))
       then 1 else 0.
Proof.
  assert (Hr : reachable (MoreSamples.agents_after MoreSamples.trigger_refused)).
  { apply (agent_steps_reachable MoreSamples.trigger_refused init);
      [apply reachable_init|reflexivity]. }
  split; [exact Hr|].
  exact (one_trigger_at_a_time _ Hr).
Defined.

(** X19 on the list after a trigger was refused. *)
Lemma every_trigger_alerts_once_witness :
  reachable (MoreSamples.agents_after MoreSamples.trigger_refused)
  /\ alerts (shown (MoreSamples.agents_after MoreSamples.trigger_refused))
     + runs_in_flight (pending (MoreSamples.agents_after MoreSamples.trigger_refused))
     = runs_sent (sent (MoreSamples.agents_after MoreSamples.trigger_refused)).
Proof.
  assert (Hr : reachable (MoreSamples.agents_after MoreSamples.trigger_refused)).
  { apply (agent_steps_reachable MoreSamples.trigger_refused init);
      [apply reachable_init|reflexivity]. }
  split; [exact Hr|].
  exact (every_trigger_alerts_once _ Hr).
Defined.

End AgentListFacts.

(** ** The event feed (components/EventFeed.tsx) *)

Module EventFeedFacts.
Import EventFeed.

Lemma split_cons (sep : ascii) (s : string) :
  exists w ws, split sep s = w :: ws.
Proof.
  destruct s as [|c s]; cbn; [eauto|].
  destruct (Ascii.eqb c sep); [eauto|].
  destruct (split sep s); eauto.
Qed.

Lemma join_cons_char (sep : string) (c : ascii) (w : string) (ws : list string) :
  join sep (String c w :: ws) = String c (join sep (w :: ws)).
Proof. now destruct ws. Qed.

(** Splitting at a character and joining with it gives the string back,
    and the first piece is the part before the first separator. *)
Lemma split_join_round_trip (sep : ascii) (s : string) :
  join (String sep EmptyString) (split sep s) = s
  /\ hd EmptyString (split sep s) = split_head sep s.
Proof.
  induction s as [|c s [IHj IHh]]; [split; reflexivity|].
  cbn [split split_head].
  destruct (split_cons sep s) as (w & ws & Hs).
  destruct (Ascii.eqb c sep) eqn:Hc.
  - apply Ascii.eqb_eq in Hc as ->. split; [|reflexivity].
    rewrite Hs in *. cbn [join]. cbn. now rewrite <- IHj.
  - rewrite Hs in *. split.
    + now rewrite join_cons_char, IHj.
    + cbn in *. now rewrite IHh.
Qed.

Lemma toUpperCase_facts (c : ascii) :
  toUpperCase (toUpperCase c) = toUpperCase c
  /\ (toUpperCase c = "_"%char -> c = "_"%char)
  /\ (toUpperCase c = " "%char -> c = " "%char).
Proof.
  destruct c as [[] [] [] [] [] [] [] []]; vm_compute;
    repeat split; intros H; try reflexivity; discriminate H.
Qed.

Lemma chars_app (a b : string) :
  list_ascii_of_string (a ++ b) = list_ascii_of_string a ++ list_ascii_of_string b.
Proof. induction a as [|c a IH]; cbn; [reflexivity|now rewrite IH]. Qed.

Lemma length_app (a b : string) :
  String.length (a ++ b) = String.length a + String.length b.
Proof. induction a as [|c a IH]; cbn; [reflexivity|now rewrite IH]. Qed.

Lemma capitalize_length (w : string) :
  String.length (capitalize w) = String.length w.
Proof. now destruct w. Qed.

Lemma join_length (l : list string) :
  String.length (join " " (map capitalize l)) = String.length (join "_" l).
Proof.
  induction l as [|w l IH]; [reflexivity|].
  cbn [map join]. destruct l as [|w' l]; [apply capitalize_length|].
  cbn [map] in *. rewrite !length_app, capitalize_length, IH. reflexivity.
Qed.

(** The pieces of a split hold no separator. *)
Lemma split_pieces (sep : ascii) (s : string) :
  Forall (fun w => ~ In sep (list_ascii_of_string w)) (split sep s).
Proof.
  induction s as [|c s IH]; cbn [split].
  - constructor; [intros []|constructor].
  - destruct (Ascii.eqb_spec c sep) as [->|Hne].
    + constructor; [intros []|exact IH].
    + destruct (split sep s) as [|w ws]; [repeat constructor; cbn; tauto|].
      inversion IH as [|? ? Hw Hws]; subst.
      constructor; [|exact Hws].
      cbn. intros [He|Hin]; [now apply Hne|now apply Hw].
Qed.

Lemma capitalize_keeps_out (w : string) :
  ~ In "_"%char (list_ascii_of_string w) ->
  ~ In "_"%char (list_ascii_of_string (capitalize w)).
Proof.
  destruct w as [|c w]; [auto|]. cbn. intros Hno [He|Hin].
  - apply Hno. left. now apply toUpperCase_facts.
  - apply Hno. now right.
Qed.

Lemma join_keeps_out (l : list string) :
  Forall (fun w => ~ In "_"%char (list_ascii_of_string w)) l ->
  ~ In "_"%char (list_ascii_of_string (join " " l)).
Proof.
  induction l as [|w l IH]; intros Hall; [intros []|].
  inversion Hall as [|? ? Hw Hl]; subst.
  cbn [join]. destruct l as [|w' l]; [exact Hw|].
  rewrite !chars_app. intros Hin.
  apply in_app_or in Hin as [Hin|Hin]; [now apply Hw|].
  apply in_app_or in Hin as [Hin|Hin]; [|now apply IH].
  cbn in Hin. destruct Hin as [Hin|[]]. discriminate Hin.
Qed.

Lemma split_without_separator (sep : ascii) (s : string) :
  ~ In sep (list_ascii_of_string s) -> split sep s = [s].
Proof.
  induction s as [|c s IH]; [reflexivity|].
  cbn. intros Hno.
  destruct (Ascii.eqb_spec c sep) as [->|Hne]; [exfalso; apply Hno; now left|].
  rewrite IH by (intros Hin; apply Hno; now right). reflexivity.
Qed.

Lemma capitalize_join (l : list string) :
  capitalize (join " " (map capitalize l)) = join " " (map capitalize l).
Proof.
  destruct l as [|w l]; [reflexivity|].
  cbn [map join]. destruct w as [|c w].
  - destruct (map capitalize l); reflexivity.
  - cbn [capitalize].
    destruct (map capitalize l); cbn;
      now destruct (toUpperCase_facts c) as [-> _].
Qed.

(** X20. On a kind written in ASCII, [formatKind] keeps the length,
    leaves no underscore, and formatting twice is formatting once. *)
Theorem formatKind_shape (kind : string) :
  ascii_only kind = true ->
  String.length (formatKind kind) = String.length kind
  /\ ~ In "_"%char (list_ascii_of_string (formatKind kind))
  /\ formatKind (formatKind kind) = formatKind kind.
Proof.
  intros _. unfold formatKind.
  assert (Hout : ~ In "_"%char
                   (list_ascii_of_string
                      (join " " (map capitalize (split "_"%char kind))))).
  { apply join_keeps_out. apply Forall_map.
    eapply Forall_impl; [|apply split_pieces].
    intros w. apply capitalize_keeps_out. }
  split; [|split; [exact Hout|]].
  - rewrite join_length.
    now rewrite (proj1 (split_join_round_trip "_"%char kind)).
  - rewrite (split_without_separator _ _ Hout). cbn [map join].
    apply capitalize_join.
Qed.

(** X20 on the kind of a completed run. *)
Lemma formatKind_shape_witness :
  ascii_only "run_completed" = true
  /\ formatKind (formatKind "run_completed") = formatKind "run_completed".
Proof.
  split; [reflexivity|].
  exact (proj2 (proj2 (formatKind_shape "run_completed" eq_refl))).
Defined.

End EventFeedFacts.

(** ** Input submissions on the page *)

Module InputFacts.
Import App Page.

Section Step.

Variable JSON_parse : string -> EventStream.Parsed.

(** On a page that can be reached the controls of the prompt cannot be
    used. *)
Lemma prompt_controls_off (w : World) :
  reachable JSON_parse w ->
  (forall value, step JSON_parse w (TypeInput value) = None)
  /\ step JSON_parse w PressEnter = None
  /\ step JSON_parse w ClickSend = None.
Proof.
  intros Hreach.
  destruct (AppFacts.reachable_invariant JSON_parse w Hreach) as (_ & Hsel & _).
  cbn [step]. destruct (mounted w) as [m|]; [|auto].
  destruct (Hsel m eq_refl) as (_ & _ & Hp & _).
  destruct (AppFacts.prompt_hidden m Hp) as [-> ->]. auto.
Qed.


(** C4. On every page that can be reached, while the status shown for
    the selected run is not one of waiting for input, [submitInput] cannot
    be invoked (neither the Enter key nor the Send button is there) and no
    step of the page sends an input request to the backend.  (The same
    holds whatever the status: the prompt, the only caller of
    [submitInput], is never rendered.) *)
Theorem C4_no_input_sent_unless_awaiting (w : World) (m : Mounted) :
  reachable JSON_parse w ->
  mounted w = Some m ->
  RunDetail.awaiting_input_status (RunDetail.status (state m)) = false ->
  step JSON_parse w PressEnter = None
  /\ step JSON_parse w ClickSend = None
  /\ (forall a w',
        step JSON_parse w a = Some w' ->
        inputs (outbox w') = inputs (outbox w)).
Proof.
  intros Hreach _ _.
  destruct (prompt_controls_off w Hreach) as (_ & Henter & Hsend).
  split; [exact Henter|]. split; [exact Hsend|].
  intros a w' Hstep.
  pose proof (AppFacts.reachable_invariant JSON_parse w Hreach) as Hinv.
  pose proof (AppFacts.invariant_step JSON_parse w w' a Hinv Hstep) as Hinv'.
  destruct Hinv as (_ & _ & ->). destruct Hinv' as (_ & _ & ->). reflexivity.
Qed.


End Step.

(** C4 on the page that shows run A as completed. *)
Lemma C4_no_input_sent_unless_awaiting_witness :
  reachable Samples.sample_parse (Scenarios.page_after Scenarios.completed_shown)
  /\ mounted (Scenarios.page_after Scenarios.completed_shown)
     = Some (Scenarios.view_of (Scenarios.page_after Scenarios.completed_shown))
  /\ RunDetail.awaiting_input_status
       (RunDetail.status
          (state (Scenarios.view_of
                    (Scenarios.page_after Scenarios.completed_shown)))) = false
  /\ step Samples.sample_parse
          (Scenarios.page_after Scenarios.completed_shown) ClickSend = None.
Proof.
  assert (Hr : reachable Samples.sample_parse
                 (Scenarios.page_after Scenarios.completed_shown)).
  { apply (AppFacts.steps_reachable Samples.sample_parse
             Scenarios.completed_shown init);
      [apply reachable_init|reflexivity]. }
  split; [exact Hr|]. split; [reflexivity|]. split; [reflexivity|].
  exact (proj1 (proj2 (C4_no_input_sent_unless_awaiting Samples.sample_parse
                         _ _ Hr eq_refl eq_refl))).
Defined.


End InputFacts.
